(** * ac-lambda-deployment: the deployer's reconciliation logic

    A shallow embedding of [LambdaDeployer] (the sequential, poll-gated
    generation and, in [Module Legacy], the older code-update path) together
    with the properties of its remote-call protocol.

    The program is asynchronous JavaScript driving the AWS Lambda API.  Every
    remote call is awaited in sequence, so a run is modelled as a state
    transformer over a [World] (wall clock, file system, chronological event
    trace) that ends in a value, a thrown error, or fuel exhaustion.  The
    remote service and the archive builder are not part of the program: they
    are an [Env] the run is played against. *)

From stdpp Require Import base strings list gmap.
From Stdlib Require Import ZArith Lia Ascii.

Open Scope Z_scope.

(** ** JavaScript values *)

(** A thrown or rejected value: [err.name] and [err.message]. *)
Record JsError := mkError { name : string; message : string }.

(** [new Error(msg)] *)
Definition newError (msg : string) : JsError := mkError "Error" msg.

#[global] Instance JsError_eq_dec : EqDecision JsError.
Proof. solve_decision. Defined.

(** Truthiness, as [if (x)], [!x] and [x || d] see it. *)
Class Truthy (A : Type) := truthy : A -> bool.

#[global] Instance truthy_string : Truthy string :=
  fun s => match s with EmptyString => false | String _ _ => true end.
#[global] Instance truthy_Z : Truthy Z := fun z => negb (z =? 0).
#[global] Instance truthy_bool : Truthy bool := fun b => b.
(** Arrays and objects are truthy even when empty. *)
#[global] Instance truthy_list {A} : Truthy (list A) := fun _ => true.
#[global] Instance truthy_gmap {K} `{Countable K} {V} : Truthy (gmap K V) :=
  fun _ => true.
(** A property that may be [undefined]. *)
#[global] Instance truthy_option {A} `{Truthy A} : Truthy (option A) :=
  fun o => match o with Some v => truthy v | None => false end.

(** [o || d] for a possibly undefined property [o]. *)
Definition js_or {A} `{Truthy A} (o : option A) (d : A) : A :=
  match o with
  | Some v => if truthy v then v else d
  | None => d
  end.

Notation "o '<||>' d" := (js_or o d) (at level 45, left associativity).

(** A destructuring default [{ x = d }]: applies to [undefined] only. *)
Definition js_default {A} (o : option A) (d : A) : A :=
  match o with Some v => v | None => d end.

(** ** Data model *)

Record TriggerSpec := mkTrigger {
  queueArn : string;
  batchSize : option Z;
  maxBatchingWindow : option Z;
  enabled : option bool
}.

Record DeploymentConfig := mkConfig {
  functionName : option string;
  sourceDir : option string;
  roleArn : option string;
  includes : option (list string);
  region : option string;
  profile : option string;
  runtime : option string;
  handler : option string;
  description : option string;
  timeout : option Z;
  memorySize : option Z;
  environment : option (gmap string string);
  layers : option (list string);
  sqsTriggers : option (list TriggerSpec)
}.

(** [result.Configuration] of a GetFunction response. *)
Record FunctionConfiguration := mkFunctionConfiguration {
  State : option string;
  LastUpdateStatus : option string
}.

(** One entry of [existing.EventSourceMappings]. *)
Record Mapping := mkMapping {
  UUID : string;
  EventSourceArn : option string
}.

(** What a resolved [lambda.send] yields; the program reads these two
    properties only. *)
Record Response := mkResponse {
  Configuration : option FunctionConfiguration;
  EventSourceMappings : option (list Mapping)
}.

Record CreateFunctionParams := mkCreateParams {
  cf_FunctionName : option string;
  cf_Runtime : string;
  cf_Role : option string;
  cf_Handler : string;
  cf_Code_ZipFile : string;
  cf_Description : string;
  cf_Timeout : Z;
  cf_MemorySize : Z;
  cf_Environment : option (gmap string string);
  cf_Layers : list string
}.

Record UpdateConfigurationParams := mkConfigParams {
  uc_FunctionName : string;
  uc_Runtime : string;
  uc_Handler : string;
  uc_Description : option string;
  uc_Timeout : Z;
  uc_MemorySize : Z;
  uc_Environment : option (gmap string string);
  uc_Layers : list string
}.

(** The parameters the older [updateFunctionConfig] builds: every field but
    [Layers] is passed on as found, [undefined] included. *)
Record LegacyConfigurationParams := mkLegacyConfigParams {
  lc_FunctionName : option string;
  lc_Runtime : option string;
  lc_Handler : option string;
  lc_Description : option string;
  lc_Timeout : option Z;
  lc_MemorySize : option Z;
  lc_Environment : option (gmap string string);
  lc_Layers : list string
}.

Record MappingSettings := mkSettings {
  BatchSize : Z;
  MaximumBatchingWindowInSeconds : Z;
  Enabled : bool
}.

(** The commands handed to [lambda.send]. *)
Inductive Command :=
| GetFunctionCommand (FunctionName : string)
| CreateFunctionCommand (params : CreateFunctionParams)
| UpdateFunctionCodeCommand (FunctionName : string) (ZipFile : string)
| UpdateFunctionConfigurationCommand (params : UpdateConfigurationParams)
| LegacyUpdateFunctionConfigurationCommand (params : LegacyConfigurationParams)
| ListEventSourceMappingsCommand (FunctionName : string)
| CreateEventSourceMappingCommand
    (EventSourceArn : string) (FunctionName : string) (s : MappingSettings)
| UpdateEventSourceMappingCommand (UUID : string) (s : MappingSettings)
| DeleteEventSourceMappingCommand (UUID : string).

(** ** The world a run acts on *)

Inductive Event :=
| EvZip (outputPath : string)      (* createZip resolved *)
| EvSend (c : Command)             (* lambda.send(c) *)
| EvWait (ms : Z)                  (* await new Promise(r => setTimeout(r, ms)) *)
| EvUnlink (path : string)         (* fs.unlinkSync(path) *)
| EvReport (msg : string)          (* console.error('Deployment failed:', msg) *)
| EvExit (code : Z).               (* process.exit(code) *)

Record World := mkWorld {
  clock : Z;                       (* Date.now() *)
  fs : gmap string string;         (* path |-> file contents *)
  trace : list Event               (* oldest first *)
}.

(** How [lambda.send] can end: it throws before handing out a promise, or the
    promise settles after some time. *)
Inductive Reply :=
| Throws (e : JsError)
| Settles (latency : N) (r : JsError + Response).

Inductive BuildOutcome :=
| Built (bytes : string)
| BuildFailed (e : JsError) (leftover : option string).

(** The collaborators: the remote answers a command knowing everything that
    happened so far; the builder is archiver plus the package manager. *)
Record Env := mkEnv {
  remote : list Event -> Command -> Reply;
  builder : string -> string -> list string -> BuildOutcome
}.

(** ** Runs *)

Inductive Outcome (A : Type) :=
| Returned (a : A)
| Thrown (e : JsError)
| OutOfFuel.
Arguments Returned {A} a.
Arguments Thrown {A} e.
Arguments OutOfFuel {A}.

Definition M (A : Type) : Type := World -> Outcome A * World.

Definition ret {A} (a : A) : M A := fun w => (Returned a, w).
Definition throw {A} (e : JsError) : M A := fun w => (Thrown e, w).
Definition outOfFuel {A} : M A := fun w => (OutOfFuel, w).

Definition bind {A B} (m : M A) (k : A -> M B) : M B :=
  fun w =>
    match m w with
    | (Returned a, w1) => k a w1
    | (Thrown e, w1) => (Thrown e, w1)
    | (OutOfFuel, w1) => (OutOfFuel, w1)
    end.

Notation "'let!' x ':=' m 'in' k" := (bind m (fun x => k))
  (at level 10, x name, m at level 100, k at level 200).
Notation "'do!' m 'in' k" := (bind m (fun _ => k))
  (at level 10, m at level 100, k at level 200).

(** [try { m } catch (err) { h err }] *)
Definition try_catch {A} (m : M A) (h : JsError -> M A) : M A :=
  fun w =>
    match m w with
    | (Thrown e, w1) => h e w1
    | r => r
    end.

(** [try { m } finally { f }]: [f] runs on both exits; if [f] itself throws,
    that error wins. *)
Definition try_finally {A} (m : M A) (f : M unit) : M A :=
  fun w =>
    match m w with
    | (OutOfFuel, w1) => (OutOfFuel, w1)
    | (r, w1) =>
        match f w1 with
        | (Returned _, w2) => (r, w2)
        | (Thrown e, w2) => (Thrown e, w2)
        | (OutOfFuel, w2) => (OutOfFuel, w2)
        end
    end.

Definition emit (ev : Event) : M unit :=
  fun w => (Returned tt, mkWorld (clock w) (fs w) (trace w ++ [ev])).

Definition advance (ms : Z) : M unit :=
  fun w => (Returned tt, mkWorld (clock w + ms) (fs w) (trace w)).

(** [Date.now()] *)
Definition dateNow : M Z := fun w => (Returned (clock w), w).

(** [await new Promise(resolve => setTimeout(resolve, ms))] *)
Definition sleep (ms : Z) : M unit := do! emit (EvWait ms) in advance ms.

(** ** File system *)

Definition enoent (path : string) : JsError :=
  mkError "Error" ("ENOENT: no such file or directory, open '" +:+ path +:+ "'").

Definition readFileSync (path : string) : M string :=
  fun w =>
    match fs w !! path with
    | Some bytes => (Returned bytes, w)
    | None => (Thrown (enoent path), w)
    end.

Definition existsSync (path : string) : M bool :=
  fun w => (Returned (bool_decide (is_Some (fs w !! path))), w).

Definition unlinkSync (path : string) : M unit :=
  fun w =>
    match fs w !! path with
    | Some _ =>
        (Returned tt, mkWorld (clock w) (delete path (fs w)) (trace w ++ [EvUnlink path]))
    | None => (Thrown (enoent path), w)
    end.

(** [path.join(dir, file)] on the two shapes the deployer builds. *)
Definition path_join (dir file : string) : string :=
  if bool_decide (dir = ".") then file else dir +:+ "/" +:+ file.

(** ** The deployer (sequential generation) *)

Definition isConflict (err : JsError) : bool :=
  bool_decide (name err = "ResourceConflictException").

Definition isNotFound (err : JsError) : bool :=
  bool_decide (name err = "ResourceNotFoundException").

(** [const waitTime = (i + 1) * 30000] *)
Definition waitTime (i : Z) : Z := (i + 1) * 30000.

(** Iterations that [while (Date.now() - startTime < maxWaitMs)] can need when
    every iteration sleeps 3000 ms, and one more for the exit test. *)
Definition pollFuel (maxWaitMs : Z) : nat := Z.to_nat (maxWaitMs / 3000) + 2.

Inductive PollStep := PollReady | PollAgain.

(** [trigger.batchSize || 10], [trigger.maxBatchingWindow || 0],
    [trigger.enabled !== false] *)
Definition settingsOf (trigger : TriggerSpec) : MappingSettings :=
  {| BatchSize := batchSize trigger <||> 10;
     MaximumBatchingWindowInSeconds := maxBatchingWindow trigger <||> 0;
     Enabled := negb (bool_decide (enabled trigger = Some false)) |}.

(** [existing.EventSourceMappings?.find(m => m.EventSourceArn === trigger.queueArn)] *)
Definition findMapping (existing : Response) (trigger : TriggerSpec) : option Mapping :=
  ms ← EventSourceMappings existing;
  List.find (fun m => bool_decide (EventSourceArn m = Some (queueArn trigger))) ms.

(** [configuredArns.includes(mapping.EventSourceArn)] *)
Definition arnIncluded (configuredArns : list string) (arn : option string) : bool :=
  match arn with
  | Some q => bool_decide (q ∈ configuredArns)
  | None => false
  end.

(** [config.layers || config.environment || config.timeout ||
     config.memorySize || config.description] *)
Definition configTouched (config : DeploymentConfig) : bool :=
  truthy (layers config) || truthy (environment config) || truthy (timeout config)
  || truthy (memorySize config) || truthy (description config).

(** [config.environment ? { Variables: config.environment } : undefined] *)
Definition environmentParam (config : DeploymentConfig) : option (gmap string string) :=
  if truthy (environment config) then environment config else None.

Definition createParams (config : DeploymentConfig) (zipBuffer : string)
  : CreateFunctionParams :=
  {| cf_FunctionName := functionName config;
     cf_Runtime := runtime config <||> "nodejs22.x";
     cf_Role := roleArn config;
     cf_Handler := handler config <||> "lambda.handler";
     cf_Code_ZipFile := zipBuffer;
     cf_Description := description config <||> "Deployed with lambda-deployer";
     cf_Timeout := timeout config <||> 30;
     cf_MemorySize := memorySize config <||> 128;
     cf_Environment := environmentParam config;
     cf_Layers := layers config <||> [] |}.

Definition configParams (fname : string) (config : DeploymentConfig)
  : UpdateConfigurationParams :=
  {| uc_FunctionName := fname;
     uc_Runtime := runtime config <||> "nodejs18.x";
     uc_Handler := handler config <||> "lambda.handler";
     uc_Description := description config;
     uc_Timeout := timeout config <||> 30;
     uc_MemorySize := memorySize config <||> 128;
     uc_Environment := environmentParam config;
     uc_Layers := layers config <||> [] |}.

(** [for (const x of l) { await f(x) }] *)
Fixpoint forEachM {A} (f : A -> M unit) (l : list A) : M unit :=
  match l with
  | [] => ret tt
  | x :: rest => do! f x in forEachM f rest
  end.

Section Deployer.
Variable env : Env.

(** [this.lambda.send(command)]: the call is logged and the remote decides
    how it ends. *)
Definition send (command : Command) : M Reply :=
  fun w =>
    (Returned (remote env (trace w) command),
     mkWorld (clock w) (fs w) (trace w ++ [EvSend command])).

(** What [await] makes of a reply: time passes until the promise settles; a
    rejection is thrown at the await, as a synchronous throw is. *)
Definition settle (reply : Reply) : M Response :=
  match reply with
  | Throws e => throw e
  | Settles latency (inl e) => do! advance (Z.of_N latency) in throw e
  | Settles latency (inr v) => do! advance (Z.of_N latency) in ret v
  end.

(** [await this.lambda.send(command)] *)
Definition awaitSend (command : Command) : M Response :=
  let! reply := send command in settle reply.

(** The archive builder as seen by the deployer: on success the archive is
    on disk at [outputPath]. *)
Definition createZip (sourceDir outputPath : string) (includes : list string)
  : M string :=
  fun w =>
    match builder env sourceDir outputPath includes with
    | Built bytes =>
        (Returned outputPath,
         mkWorld (clock w) (<[outputPath := bytes]> (fs w)) (trace w ++ [EvZip outputPath]))
    | BuildFailed e leftover =>
        (Thrown e,
         mkWorld (clock w)
           (match leftover with
            | Some bytes => <[outputPath := bytes]> (fs w)
            | None => fs w
            end)
           (trace w))
    end.

Definition functionExists (functionName : string) : M bool :=
  try_catch
    (do! awaitSend (GetFunctionCommand functionName) in ret true)
    (fun err => if isNotFound err then ret false else throw err).

(** [createFunction({ ...config, zipPath })].  The method is not [async]: it
    hands back the promise of [send], which [deploy] awaits at once. *)
Definition createFunction (config : DeploymentConfig) (zipPath : string)
  : M Response :=
  let! zipBuffer := readFileSync zipPath in
  awaitSend (CreateFunctionCommand (createParams config zipBuffer)).

(** The body of [for (let i = 0; i < 3; i++)]; [remaining] is [3 - i], and
    [None] is the [undefined] the method yields when the loop runs out. *)
Fixpoint retryLoop (remaining : nat) (i : Z) (command : Command)
  : M (option Response) :=
  match remaining with
  | O => ret None
  | S remaining' =>
      try_catch
        (let! result := awaitSend command in ret (Some result))
        (fun err =>
           if isConflict err && (i <? 2) then
             do! sleep (waitTime i) in retryLoop remaining' (i + 1) command
           else throw err)
  end.

Definition updateWithRetry (command : Command) (updateType : string)
  : M (option Response) :=
  retryLoop 3 0 command.

(** One pass through the body of the polling loop, up to the sleep. *)
Definition pollOnce (functionName : string) : M PollStep :=
  try_catch
    (let! result := awaitSend (GetFunctionCommand functionName) in
     let state := Configuration result ≫= State in
     let lastUpdateStatus := Configuration result ≫= LastUpdateStatus in
     if bool_decide (state = Some "Active")
        && bool_decide (lastUpdateStatus = Some "Successful")
     then ret PollReady
     else if bool_decide (lastUpdateStatus = Some "Failed")
     then throw (newError "Previous update failed")
     else ret PollAgain)
    (fun err =>
       if bool_decide (message err = "Previous update failed")
       then throw err
       else ret PollAgain).

Fixpoint pollLoop (fuel : nat) (functionName : string) (startTime maxWaitMs : Z)
  : M unit :=
  match fuel with
  | O => outOfFuel
  | S fuel' =>
      let! now := dateNow in
      if now - startTime <? maxWaitMs then
        let! step := pollOnce functionName in
        match step with
        | PollReady => ret tt
        | PollAgain =>
            do! sleep 3000 in pollLoop fuel' functionName startTime maxWaitMs
        end
      else throw (newError "Timeout waiting for function to be ready")
  end.

Definition waitForFunctionReady (functionName : string) (maxWaitMs : Z) : M unit :=
  let! startTime := dateNow in
  pollLoop (pollFuel maxWaitMs) functionName startTime maxWaitMs.

Definition updateFunctionSequential
    (functionName zipPath : string) (config : DeploymentConfig) : M unit :=
  let! zipBuffer := readFileSync zipPath in
  do! updateWithRetry (UpdateFunctionCodeCommand functionName zipBuffer) "code" in
  if configTouched config then
    do! waitForFunctionReady functionName 120000 in
    do! updateWithRetry
          (UpdateFunctionConfigurationCommand (configParams functionName config))
          "configuration" in
    ret tt
  else ret tt.

Definition syncTrigger (functionName : string) (existing : Response)
    (trigger : TriggerSpec) : M unit :=
  match findMapping existing trigger with
  | Some existingMapping =>
      do! awaitSend
            (UpdateEventSourceMappingCommand (UUID existingMapping) (settingsOf trigger)) in
      ret tt
  | None =>
      do! awaitSend
            (CreateEventSourceMappingCommand (queueArn trigger) functionName
               (settingsOf trigger)) in
      ret tt
  end.

Definition removeUnconfigured (configuredArns : list string) (mapping : Mapping)
  : M unit :=
  if negb (arnIncluded configuredArns (EventSourceArn mapping)) then
    do! awaitSend (DeleteEventSourceMappingCommand (UUID mapping)) in ret tt
  else ret tt.

Definition updateEventSourceMappings
    (functionName : string) (sqsTriggers : option (list TriggerSpec)) : M unit :=
  let sqsTriggers := js_default sqsTriggers [] in
  if bool_decide (length sqsTriggers = 0%nat) then ret tt
  else
    let! existing := awaitSend (ListEventSourceMappingsCommand functionName) in
    do! forEachM (syncTrigger functionName existing) sqsTriggers in
    let configuredArns := map queueArn sqsTriggers in
    forEachM (removeUnconfigured configuredArns)
      (EventSourceMappings existing <||> []).

(** [if (config.sqsTriggers) { await this.updateEventSourceMappings(...) }] *)
Definition syncTriggers (fname : string) (config : DeploymentConfig) : M unit :=
  if truthy (sqsTriggers config)
  then updateEventSourceMappings fname (sqsTriggers config)
  else ret tt.

(** The [finally] block of [deploy]. *)
Definition cleanup (zipPath : string) : M unit :=
  let! present := existsSync zipPath in
  if present then unlinkSync zipPath else ret tt.

(** The [try] block of [deploy]. *)
Definition reconcile (fname zipPath : string) (config : DeploymentConfig) : M unit :=
  let! exists_ := functionExists fname in
  if exists_ then
    do! updateFunctionSequential fname zipPath config in
    syncTriggers fname config
  else
    if negb (truthy (roleArn config)) then
      throw (newError "roleArn is required for creating new functions")
    else
      do! createFunction config zipPath in
      syncTriggers fname config.

(** [deploy], from the loaded configuration on.  Which client the calls go
    through ([rebindClient] below) changes no call the run makes. *)
Definition deploy (config : DeploymentConfig) : M unit :=
  let srcDir := js_default (sourceDir config) "." in
  let incl := js_default (includes config) ["lambda.js"] in
  if negb (truthy (functionName config)) then
    throw (newError "functionName is required in configuration")
  else
    let fname := js_default (functionName config) EmptyString in
    let zipPath := path_join srcDir (fname +:+ ".zip") in
    do! createZip srcDir zipPath incl in
    try_finally (reconcile fname zipPath config) (cleanup zipPath).

(** [cli]: a failed deployment is reported, then the process exits with 1. *)
Definition cli (config : DeploymentConfig) : M unit :=
  try_catch (deploy config)
    (fun err => do! emit (EvReport (message err)) in emit (EvExit 1)).

End Deployer.

(** ** The older code-update path *)

Module Legacy.
Section Legacy.
Variable env : Env.

(** The body of the retry loop of the older [updateFunction]: the promise of
    [send] is returned from inside [try] without [await], so only a
    synchronous throw of [send] reaches [catch]; a returned promise settles
    for the caller. *)
Fixpoint updateFunctionLoop (remaining : nat) (i : Z) (command : Command)
  : M (option Response) :=
  match remaining with
  | O => ret None
  | S remaining' =>
      let! reply := send env command in
      match reply with
      | Throws err =>
          if isConflict err && (i <? 2) then
            do! sleep 30000 in updateFunctionLoop remaining' (i + 1) command
          else throw err
      | Settles _ _ => let! result := settle reply in ret (Some result)
      end
  end.

Definition updateFunction (functionName zipPath : string) : M (option Response) :=
  let! zipBuffer := readFileSync zipPath in
  updateFunctionLoop 3 0 (UpdateFunctionCodeCommand functionName zipBuffer).

Definition configParams (config : DeploymentConfig) : LegacyConfigurationParams :=
  {| lc_FunctionName := functionName config;
     lc_Runtime := runtime config;
     lc_Handler := handler config;
     lc_Description := description config;
     lc_Timeout := timeout config;
     lc_MemorySize := memorySize config;
     lc_Environment := environmentParam config;
     lc_Layers := layers config <||> [] |}.

(** The retry loop of [updateFunctionConfig]: the same shape, with a wait
    of 20 s. *)
Fixpoint updateFunctionConfigLoop (remaining : nat) (i : Z) (command : Command)
  : M (option Response) :=
  match remaining with
  | O => ret None
  | S remaining' =>
      let! reply := send env command in
      match reply with
      | Throws err =>
          if isConflict err && (i <? 2) then
            do! sleep 20000 in updateFunctionConfigLoop remaining' (i + 1) command
          else throw err
      | Settles _ _ => let! result := settle reply in ret (Some result)
      end
  end.

Definition updateFunctionConfig (config : DeploymentConfig) : M (option Response) :=
  updateFunctionConfigLoop 3 0
    (LegacyUpdateFunctionConfigurationCommand (configParams config)).

(** [config.layers || config.environment || config.timeout || config.memorySize] *)
Definition configTouched (config : DeploymentConfig) : bool :=
  truthy (layers config) || truthy (environment config) || truthy (timeout config)
  || truthy (memorySize config).

Definition createParams (config : DeploymentConfig) (zipBuffer : string)
  : CreateFunctionParams :=
  {| cf_FunctionName := functionName config;
     cf_Runtime := runtime config <||> "nodejs18.x";
     cf_Role := roleArn config;
     cf_Handler := handler config <||> "lambda.handler";
     cf_Code_ZipFile := zipBuffer;
     cf_Description := description config <||> "Deployed with lambda-deployer";
     cf_Timeout := timeout config <||> 30;
     cf_MemorySize := memorySize config <||> 128;
     cf_Environment := environmentParam config;
     cf_Layers := layers config <||> [] |}.

Definition createFunction (config : DeploymentConfig) (zipPath : string)
  : M Response :=
  let! zipBuffer := readFileSync zipPath in
  awaitSend env (CreateFunctionCommand (createParams config zipBuffer)).

(** The [try] block of the older [deploy]. *)
Definition reconcile (fname zipPath : string) (config : DeploymentConfig) : M unit :=
  let! exists_ := functionExists env fname in
  if exists_ then
    do! updateFunction fname zipPath in
    do! (if configTouched config
         then do! updateFunctionConfig config in ret tt
         else ret tt) in
    syncTriggers env fname config
  else
    if negb (truthy (roleArn config)) then
      throw (newError "roleArn is required for creating new functions")
    else
      do! createFunction config zipPath in
      syncTriggers env fname config.

Definition deploy (config : DeploymentConfig) : M unit :=
  let srcDir := js_default (sourceDir config) "." in
  let incl := js_default (includes config) ["lambda.js"] in
  if negb (truthy (functionName config)) then
    throw (newError "functionName is required in configuration")
  else
    let fname := js_default (functionName config) EmptyString in
    let zipPath := path_join srcDir (fname +:+ ".zip") in
    do! createZip env srcDir zipPath incl in
    try_finally (reconcile fname zipPath config) (cleanup zipPath).

End Legacy.
End Legacy.

(** ** Reading traces *)

(** The remote calls in a piece of trace, in the order they were issued. *)
Definition sendsOf (evs : list Event) : list Command :=
  omap (fun ev => match ev with EvSend c => Some c | _ => None end) evs.

(** What an awaited reply amounts to, and how long the await takes. *)
Definition replyResult (reply : Reply) : JsError + Response :=
  match reply with
  | Throws e => inl e
  | Settles _ r => r
  end.

Definition replyLatency (reply : Reply) : Z :=
  match reply with
  | Throws _ => 0
  | Settles latency _ => Z.of_N latency
  end.

(** The world right after [command] was sent from [w] and awaited. *)
Definition afterSend (env : Env) (command : Command) (w : World) : World :=
  mkWorld (clock w + replyLatency (remote env (trace w) command)) (fs w)
    (trace w ++ [EvSend command]).

(** The world after a [sleep ms] started in [w]. *)
Definition afterWait (ms : Z) (w : World) : World :=
  mkWorld (clock w + ms) (fs w) (trace w ++ [EvWait ms]).

Definition isCodeUpdate (c : Command) : bool :=
  match c with UpdateFunctionCodeCommand _ _ => true | _ => false end.

Definition isConfigurationUpdate (c : Command) : bool :=
  match c with
  | UpdateFunctionConfigurationCommand _
  | LegacyUpdateFunctionConfigurationCommand _ => true
  | _ => false
  end.

Definition isGetFunction (c : Command) : bool :=
  match c with GetFunctionCommand _ => true | _ => false end.

Definition isCreateFunction (c : Command) : bool :=
  match c with CreateFunctionCommand _ => true | _ => false end.

Definition isMappingCommand (c : Command) : bool :=
  match c with
  | ListEventSourceMappingsCommand _
  | CreateEventSourceMappingCommand _ _ _
  | UpdateEventSourceMappingCommand _ _
  | DeleteEventSourceMappingCommand _ => true
  | _ => false
  end.

(** The calls that change remote state. *)
Definition isMutating (c : Command) : bool :=
  match c with
  | GetFunctionCommand _ | ListEventSourceMappingsCommand _ => false
  | _ => true
  end.

(** ** Vocabulary of the proofs *)

Definition previousUpdateFailed : JsError := newError "Previous update failed".
Definition readinessTimeout : JsError :=
  newError "Timeout waiting for function to be ready".

(** [result.Configuration?.LastUpdateStatus] and [result.Configuration?.State]
    of an awaited reply, when it resolved. *)
Definition observedStatus (r : JsError + Response) : option string :=
  match r with
  | inr result => Configuration result ≫= LastUpdateStatus
  | inl _ => None
  end.

Definition observedState (r : JsError + Response) : option string :=
  match r with
  | inr result => Configuration result ≫= State
  | inl _ => None
  end.

(** ** Concrete worlds and remotes *)

Module Scenario.

(** A remote that answers the n-th call of a run with the n-th reply of a
    script, whatever the command, and with [fallback] afterwards. *)
Definition scripted (replies : list Reply) (fallback : Reply)
  : list Event → Command → Reply :=
  fun history _ => default fallback (replies !! length (sendsOf history)).

Definition resolved (result : Response) : Reply := Settles 100 (inr result).
Definition rejected (errName errMessage : string) : Reply :=
  Settles 100 (inl (mkError errName errMessage)).

Definition plain : Response := mkResponse None None.
Definition functionIn (state lastUpdateStatus : string) : Response :=
  mkResponse
    (Some (mkFunctionConfiguration (Some state) (Some lastUpdateStatus))) None.
Definition mappings (ms : list Mapping) : Response := mkResponse None (Some ms).

Definition conflict : Reply := rejected "ResourceConflictException" "update in progress".
Definition notFound : Reply := rejected "ResourceNotFoundException" "Function not found".
Definition denied : Reply := rejected "AccessDeniedException" "not authorized".

Definition alwaysBuilt : string → string → list string → BuildOutcome :=
  fun _ _ _ => Built "zip".

Definition play (replies : list Reply) : Env :=
  mkEnv (scripted replies (resolved plain)) alwaysBuilt.

Definition freshWorld : World := mkWorld 0 ∅ [].
Definition zipOnDisk : World := mkWorld 0 {[ "f.zip" := "zip" ]} [].

(** [{ functionName: 'f', roleArn: 'role' }] *)
Definition bare : DeploymentConfig :=
  mkConfig (Some "f") None (Some "role") None None None
           None None None None None None None None.

(** [{ functionName: 'f', roleArn: 'role', timeout: 60 }] *)
Definition withTimeout : DeploymentConfig :=
  mkConfig (Some "f") None (Some "role") None None None
           None None None (Some 60) None None None None.

(** [{ functionName: 'f', roleArn: 'role', description: '' }] *)
Definition emptyDescription : DeploymentConfig :=
  mkConfig (Some "f") None (Some "role") None None None
           None None (Some EmptyString) None None None None None.

(** [{ functionName: 'f', roleArn: 'role', description: 'my function' }] *)
Definition withDescription : DeploymentConfig :=
  mkConfig (Some "f") None (Some "role") None None None
           None None (Some "my function") None None None None None.

(** [{ functionName: 'f', roleArn: 'role', runtime: 'nodejs20.x',
       handler: 'index.handler' }] *)
Definition withRuntime : DeploymentConfig :=
  mkConfig (Some "f") None (Some "role") None None None
           (Some "nodejs20.x") (Some "index.handler") None None None None None None.

(** [{ functionName: 'f' }] *)
Definition noRole : DeploymentConfig :=
  mkConfig (Some "f") None None None None None
           None None None None None None None None.

Definition queueA : TriggerSpec := mkTrigger "arn:A" None None None.
Definition queueB : TriggerSpec := mkTrigger "arn:B" (Some 5) (Some 2) (Some false).
Definition mappingA : Mapping := mkMapping "uuid-A" (Some "arn:A").
Definition mappingC : Mapping := mkMapping "uuid-C" (Some "arn:C").

End Scenario.

(** ** Plans, frames and measures *)

(** The call a configured trigger leads to, and the call (if any) a remote
    mapping leads to. *)
Definition syncCommand (functionName : string) (existing : Response)
    (trigger : TriggerSpec) : Command :=
  match findMapping existing trigger with
  | Some existingMapping =>
      UpdateEventSourceMappingCommand (UUID existingMapping) (settingsOf trigger)
  | None =>
      CreateEventSourceMappingCommand (queueArn trigger) functionName (settingsOf trigger)
  end.

Definition removeCommand (configuredArns : list string) (mapping : Mapping)
  : option Command :=
  if arnIncluded configuredArns (EventSourceArn mapping) then None
  else Some (DeleteEventSourceMappingCommand (UUID mapping)).

(** Awaiting a list of commands one after the other. *)
Definition sendAll (env : Env) (commands : list Command) : M unit :=
  forEachM (λ c, do! awaitSend env c in ret tt) commands.

(** A remote that never fails. *)
Definition alwaysResolves (env : Env) : Prop :=
  ∀ history command, ∃ v, replyResult (remote env history command) = inr v.

(** Events a remote computation may log when it only sends commands that
    satisfy [P] and sleeps. *)
Definition remoteEvent (P : Command → Prop) (ev : Event) : Prop :=
  match ev with
  | EvSend c => P c
  | EvWait _ => True
  | _ => False
  end.

(** [m] leaves the file system alone and only appends such events. *)
Definition Framed {A} (P : Command → Prop) (m : M A) : Prop :=
  ∀ w, fs (m w).2 = fs w
       ∧ ∃ evs, trace (m w).2 = trace w ++ evs ∧ Forall (remoteEvent P) evs.

(** [m] never runs out of fuel. *)
Definition Terminates {A} (m : M A) : Prop := ∀ w, (m w).1 ≠ OutOfFuel.

Create HintDb frames.

(** The calls of the update step. *)
Definition isUpdateStep (c : Command) : Prop :=
  isCodeUpdate c || isGetFunction c || isConfigurationUpdate c = true.

Definition functionNameRequired : JsError :=
  newError "functionName is required in configuration".
Definition roleArnRequired : JsError :=
  newError "roleArn is required for creating new functions".

(** Where [deploy] puts the archive. *)
Definition zipPathOf (config : DeploymentConfig) : string :=
  path_join (js_default (sourceDir config) ".")
    (js_default (functionName config) EmptyString +:+ ".zip").

(** The world once [createZip] has written the archive. *)
Definition afterZip (zipPath bytes : string) (w : World) : World :=
  mkWorld (clock w) (<[zipPath := bytes]> (fs w)) (trace w ++ [EvZip zipPath]).

(** The archive builder succeeds on this configuration. *)
Definition builds (env : Env) (config : DeploymentConfig) (bytes : string) : Prop :=
  builder env (js_default (sourceDir config) ".") (zipPathOf config)
    (js_default (includes config) ["lambda.js"]) = Built bytes.

(** The waits in a piece of trace. *)
Definition waitsOf (evs : list Event) : list Z :=
  omap (fun ev => match ev with EvWait ms => Some ms | _ => None end) evs.

(** The calls the older [try] block can make after the existence query. *)
Definition isLegacyStep (config : DeploymentConfig) (c : Command) : Prop :=
  isGetFunction c = false
  ∧ (isConfigurationUpdate c = true → Legacy.configTouched config = true).

(** The older [try] block from the answer of the existence query on. *)
Definition legacyAfterQuery (env : Env) (fname zipPath : string)
    (config : DeploymentConfig) (exists_ : bool) : M unit :=
  if exists_ then
    do! Legacy.updateFunction env fname zipPath in
    do! (if Legacy.configTouched config
         then do! Legacy.updateFunctionConfig env config in ret tt
         else ret tt) in
    syncTriggers env fname config
  else
    if negb (truthy (roleArn config)) then
      throw (newError "roleArn is required for creating new functions")
    else
      do! Legacy.createFunction env config zipPath in
      syncTriggers env fname config.

(** ** The command line and the client *)

(** [s.split(sep)] for a one-character separator. *)
Fixpoint splitOn (sep : Ascii.ascii) (s : string) : list string :=
  match s with
  | EmptyString => [EmptyString]
  | String c rest =>
      if bool_decide (c = sep) then EmptyString :: splitOn sep rest
      else match splitOn sep rest with
           | piece :: pieces => String c piece :: pieces
           | [] => [String c EmptyString]
           end
  end.

(** [args.find(arg => arg.startsWith(flag))?.split('=')[1]] *)
Definition flagValue (flag : string) (args : list string) : option string :=
  arg ← List.find (String.prefix flag) args;
  splitOn "="%char arg !! 1%nat.

(** The part of [s] before the first [sep]. *)
Fixpoint beforeSep (sep : Ascii.ascii) (s : string) : string :=
  match s with
  | EmptyString => EmptyString
  | String c rest => if bool_decide (c = sep) then EmptyString
                     else String c (beforeSep sep rest)
  end.

(** [s] does not contain [sep]. *)
Fixpoint freeOf (sep : Ascii.ascii) (s : string) : Prop :=
  match s with
  | EmptyString => True
  | String c rest => c ≠ sep ∧ freeOf sep rest
  end.

(** The options [cli] hands to the constructor, and the configuration path. *)
Record Options := mkOptions {
  opt_region : option string;
  opt_profile : option string
}.

Definition cliOptions (args : list string) : Options :=
  {| opt_region := flagValue "--region=" args;
     opt_profile := flagValue "--profile=" args |}.

Definition cliConfigPath (args : list string) : option string :=
  flagValue "--config=" args.

(** What [new LambdaClient(clientConfig)] is given: the region and, when a
    profile is in use, the profile [fromIni] reads the credentials of. *)
Record ClientConfig := mkClient {
  client_region : string;
  client_profile : option string
}.

(** The constructor: [const { region = 'eu-central-1', profile } = options]. *)
Definition newDeployer (options : Options) : ClientConfig :=
  {| client_region := js_default (opt_region options) "eu-central-1";
     client_profile := if truthy (opt_profile options) then opt_profile options else None |}.

(** [deploy]: "Override AWS config if specified in config file". *)
Definition rebindClient (client : ClientConfig) (config : DeploymentConfig)
  : ClientConfig :=
  if truthy (region config) || truthy (profile config) then
    {| client_region := region config <||> "eu-central-1";
       client_profile := if truthy (profile config) then profile config else None |}
  else client.

(** ** Basic facts about runs *)

Lemma sendsOf_app (a b : list Event) : sendsOf (a ++ b) = sendsOf a ++ sendsOf b.
Proof. unfold sendsOf. apply omap_app. Qed.

Lemma awaitSend_run env command w :
  awaitSend env command w =
    (match replyResult (remote env (trace w) command) with
     | inl e => Thrown e
     | inr v => Returned v
     end, afterSend env command w).
Proof.
  unfold awaitSend, afterSend, send, bind, settle.
  destruct (remote env (trace w) command) as [e|lat [e|v]]; simpl.
  - unfold throw. by rewrite Z.add_0_r.
  - done.
  - done.
Qed.

Lemma sleep_run ms w : sleep ms w = (Returned tt, afterWait ms w).
Proof. done. Qed.

Lemma retryLoop_step env n i command w :
  retryLoop env (S n) i command w =
    match replyResult (remote env (trace w) command) with
    | inr v => (Returned (Some v), afterSend env command w)
    | inl e =>
        if isConflict e && (i <? 2)
        then retryLoop env n (i + 1) command (afterWait (waitTime i) (afterSend env command w))
        else (Thrown e, afterSend env command w)
    end.
Proof.
  simpl. unfold try_catch, bind at 1. rewrite awaitSend_run.
  destruct (replyResult _) as [e|v]; [|done].
  destruct (isConflict e && (i <? 2)); [|done].
  unfold bind. by rewrite sleep_run.
Qed.

(** Splits [E : l = pre ++ ev :: post], for an explicit [l], into the
    positions [ev] can have in [l]. *)
Ltac split_positions pre :=
  destruct pre as [|? pre]; simplify_eq/=; try split_positions pre.

(** Settles the obligation at one position: [R] is the reply there and [C]
    what is known of its error. *)
Ltac at_position R C :=
  rewrite ?app_nil_r, R; cbn;
  repeat match goal with
         | |- context [Z.of_nat ?n] =>
             let v := eval vm_compute in (Z.of_nat n) in
             change (Z.of_nat n) with v
         end;
  rewrite ?C; cbn; rewrite ?andb_false_r; eauto.

(** ** The conflict-retry policy *)

(** The three attempts of [updateWithRetry], spelled out. *)
Lemma updateWithRetry_unfold env command updateType w :
  updateWithRetry env command updateType w =
    let w1 := afterSend env command w in
    match replyResult (remote env (trace w) command) with
    | inr v => (Returned (Some v), w1)
    | inl e1 =>
        if isConflict e1 then
          let w1' := afterWait (waitTime 0) w1 in
          let w2 := afterSend env command w1' in
          match replyResult (remote env (trace w1') command) with
          | inr v => (Returned (Some v), w2)
          | inl e2 =>
              if isConflict e2 then
                let w2' := afterWait (waitTime 1) w2 in
                let w3 := afterSend env command w2' in
                match replyResult (remote env (trace w2') command) with
                | inr v => (Returned (Some v), w3)
                | inl e3 => (Thrown e3, w3)
                end
              else (Thrown e2, w2)
          end
        else (Thrown e1, w1)
    end.
Proof.
  unfold updateWithRetry. rewrite retryLoop_step.
  destruct (replyResult _) as [e1|v1]; [|done].
  change (0 <? 2) with true. rewrite andb_true_r.
  destruct (isConflict e1); [|done].
  rewrite retryLoop_step. cbv zeta.
  destruct (replyResult _) as [e2|v2]; [|done].
  change (0 + 1 <? 2) with true. rewrite andb_true_r.
  destruct (isConflict e2); [|done].
  rewrite retryLoop_step. change (0 + 1) with 1.
  destruct (replyResult _) as [e3|v3]; [|done].
  change (1 + 1 <? 2) with false. by rewrite andb_false_r.
Qed.

(** C3.  A call wrapped in the conflict-retry policy is attempted at most
    three times.  At each attempt: a result ends the call; a conflict error
    on the first or second attempt is followed by a wait of [waitTime] of the
    attempt (30 s, then 60 s: the second wait is strictly longer) and a
    further attempt; any other error, or a conflict on the third attempt, is
    thrown to the caller with nothing after it. *)
Theorem updateWithRetry_policy env command updateType w :
  let run := updateWithRetry env command updateType w in
  ∃ evs,
    trace (run.2) = trace w ++ evs
    ∧ (1 ≤ length (sendsOf evs) ≤ 3)%nat
    ∧ Forall (eq command) (sendsOf evs)
    ∧ waitTime 0 < waitTime 1
    ∧ ∀ pre post, evs = pre ++ EvSend command :: post →
        let attempt := Z.of_nat (length (sendsOf pre)) in
        match replyResult (remote env (trace w ++ pre) command) with
        | inr v => post = [] ∧ run.1 = Returned (Some v)
        | inl e =>
            if isConflict e && (attempt <? 2)
            then ∃ post', post = EvWait (waitTime attempt) :: EvSend command :: post'
            else post = [] ∧ run.1 = Thrown e
        end.
Proof.
  intros run. subst run. rewrite updateWithRetry_unfold. cbv zeta.
  destruct (replyResult (remote env (trace w) command)) as [e1|v1] eqn:R1.
  2: { exists [EvSend command]. simpl. split_and!; try done; try lia.
       - repeat constructor.
       - intros pre post E. split_positions pre. at_position R1 R1. }
  destruct (isConflict e1) eqn:C1.
  2: { exists [EvSend command]. simpl. split_and!; try done; try lia.
       - repeat constructor.
       - intros pre post E. split_positions pre. at_position R1 C1. }
  simpl trace. rewrite <- ?app_assoc. simpl app.
  destruct (replyResult (remote env (trace w ++ _) command)) as [e2|v2] eqn:R2.
  2: { exists [EvSend command; EvWait (waitTime 0); EvSend command]. simpl.
       rewrite <- ?app_assoc. simpl. split_and!; try done; try lia.
       - repeat constructor.
       - intros pre post E. split_positions pre.
         + at_position R1 C1.
         + at_position R2 C1. }
  destruct (isConflict e2) eqn:C2.
  2: { exists [EvSend command; EvWait (waitTime 0); EvSend command]. simpl.
       rewrite <- ?app_assoc. simpl. split_and!; try done; try lia.
       - repeat constructor.
       - intros pre post E. split_positions pre.
         + at_position R1 C1.
         + at_position R2 C2. }
  exists [EvSend command; EvWait (waitTime 0); EvSend command;
          EvWait (waitTime 1); EvSend command].
  destruct (replyResult (remote env (trace w ++ [_; _; _; _]) command))
    as [e3|v3] eqn:R3.
  - simpl. rewrite <- ?app_assoc. simpl. split_and!; try done; try lia.
    + repeat constructor.
    + intros pre post E. split_positions pre.
      * at_position R1 C1.
      * at_position R2 C2.
      * at_position R3 C2.
  - simpl. rewrite <- ?app_assoc. simpl. split_and!; try done; try lia.
    + repeat constructor.
    + intros pre post E. split_positions pre.
      * at_position R1 C1.
      * at_position R2 C2.
      * at_position R3 C2.
Qed.

(** ** The readiness poller *)

Lemma pollOnce_run env functionName w :
  pollOnce env functionName w =
    (match replyResult (remote env (trace w) (GetFunctionCommand functionName)) with
     | inr result =>
         if bool_decide (Configuration result ≫= State = Some "Active")
            && bool_decide (Configuration result ≫= LastUpdateStatus = Some "Successful")
         then Returned PollReady
         else if bool_decide (Configuration result ≫= LastUpdateStatus = Some "Failed")
         then Thrown previousUpdateFailed
         else Returned PollAgain
     | inl err =>
         if bool_decide (message err = "Previous update failed")
         then Thrown err
         else Returned PollAgain
     end, afterSend env (GetFunctionCommand functionName) w).
Proof.
  unfold pollOnce, try_catch, bind. rewrite awaitSend_run.
  destruct (replyResult _) as [err|result].
  - by destruct (bool_decide (message err = _)).
  - destruct (_ && _); [done|].
    destruct (bool_decide (_ = Some "Failed")); [|done].
    by unfold throw.
Qed.

Lemma pollLoop_step env fuel functionName startTime maxWaitMs w :
  pollLoop env (S fuel) functionName startTime maxWaitMs w =
    if clock w - startTime <? maxWaitMs then
      match pollOnce env functionName w with
      | (Returned PollReady, w1) => (Returned tt, w1)
      | (Returned PollAgain, w1) =>
          pollLoop env fuel functionName startTime maxWaitMs (afterWait 3000 w1)
      | (Thrown e, w1) => (Thrown e, w1)
      | (OutOfFuel, w1) => (OutOfFuel, w1)
      end
    else (Thrown readinessTimeout, w).
Proof.
  simpl. unfold bind at 1, dateNow.
  destruct (clock w - startTime <? maxWaitMs); [|done].
  unfold bind at 1. destruct (pollOnce env functionName w) as [[[]|e|] w1]; done.
Qed.

(** A reply that lets the loop poll again took no time off the clock. *)
Lemma afterSend_clock env command w : clock w ≤ clock (afterSend env command w).
Proof.
  simpl. destruct (remote env (trace w) command); simpl; lia.
Qed.

(** The loop always ends before its fuel does: each further iteration starts
    at least 3000 ms later. *)
Lemma pollLoop_fuel env functionName startTime maxWaitMs fuel w :
  (0 < fuel)%nat →
  maxWaitMs - (clock w - startTime) ≤ 3000 * (Z.of_nat fuel - 1) →
  (pollLoop env fuel functionName startTime maxWaitMs w).1 ≠ OutOfFuel.
Proof.
  revert w. induction fuel as [|fuel IH]; intros w Hpos Hfuel.
  - lia.
  - rewrite pollLoop_step.
    destruct (clock w - startTime <? maxWaitMs) eqn:Hguard; [|done].
    apply Z.ltb_lt in Hguard.
    rewrite pollOnce_run.
    pose proof (afterSend_clock env (GetFunctionCommand functionName) w) as Hclock.
    assert (Hnext : (pollLoop env fuel functionName startTime maxWaitMs
               (afterWait 3000 (afterSend env (GetFunctionCommand functionName) w))).1
            ≠ OutOfFuel).
    { apply IH; [lia|]. unfold afterWait. cbn [clock]. lia. }
    destruct (replyResult _) as [err|result].
    + by destruct (bool_decide _).
    + destruct (_ && _); [done|]. by destruct (bool_decide _).
Qed.

Lemma waitForFunctionReady_terminates env functionName maxWaitMs w :
  (waitForFunctionReady env functionName maxWaitMs w).1 ≠ OutOfFuel.
Proof.
  unfold waitForFunctionReady, bind, dateNow.
  apply pollLoop_fuel; unfold pollFuel; [lia|].
  destruct (Z.le_gt_cases maxWaitMs 0) as [Hneg|Hpos].
  - lia.
  - pose proof (Z.mod_pos_bound maxWaitMs 3000 ltac:(lia)).
    pose proof (Z.div_mod maxWaitMs 3000 ltac:(lia)).
    assert (0 ≤ maxWaitMs / 3000) by (apply Z.div_pos; lia).
    lia.
Qed.

(** The loop only appends to the trace and leaves the file system alone. *)
Lemma pollLoop_trace env functionName startTime maxWaitMs fuel w :
  ∃ evs, trace (pollLoop env fuel functionName startTime maxWaitMs w).2
           = trace w ++ evs
         ∧ Forall (eq (GetFunctionCommand functionName)) (sendsOf evs)
         ∧ fs (pollLoop env fuel functionName startTime maxWaitMs w).2 = fs w.
Proof.
  revert w. induction fuel as [|fuel IH]; intros w.
  - exists []. by rewrite app_nil_r.
  - rewrite pollLoop_step.
    destruct (clock w - startTime <? maxWaitMs).
    2: { exists []. by rewrite app_nil_r. }
    rewrite pollOnce_run.
    destruct (IH (afterWait 3000 (afterSend env (GetFunctionCommand functionName) w)))
      as (evs & Hevs & Hsends & Hfs).
    assert (Hone : ∃ evs0, trace (afterSend env (GetFunctionCommand functionName) w)
                        = trace w ++ evs0
                      ∧ Forall (eq (GetFunctionCommand functionName)) (sendsOf evs0)).
    { exists [EvSend (GetFunctionCommand functionName)]. split; [done|].
      by repeat constructor. }
    assert (Hmore : ∃ evs1,
               trace (pollLoop env fuel functionName startTime maxWaitMs
                 (afterWait 3000 (afterSend env (GetFunctionCommand functionName) w))).2
                 = trace w ++ evs1
               ∧ Forall (eq (GetFunctionCommand functionName)) (sendsOf evs1)).
    { exists ([EvSend (GetFunctionCommand functionName); EvWait 3000] ++ evs).
      rewrite Hevs. simpl. rewrite <- !app_assoc. split; [done|].
      by constructor. }
    destruct Hone as (evs0 & ? & ?). destruct Hmore as (evs1 & ? & ?).
    destruct (replyResult _) as [err|result].
    + destruct (bool_decide _); eauto.
    + destruct (_ && _); [eauto|]. destruct (bool_decide _); eauto.
Qed.

(** ** Positions in a trace *)

Lemma app_cons_split_l {A} (l1 l2 pre post : list A) (x : A) :
  l1 ++ l2 = pre ++ x :: post → x ∉ l1 →
  ∃ pre2, pre = l1 ++ pre2 ∧ l2 = pre2 ++ x :: post.
Proof.
  intros Heq Hnot. apply app_eq_inv in Heq as [(k & H1 & H2)|(k & H1 & H2)].
  - destruct k as [|y k]; simplify_eq/=.
    + exists []. by rewrite !app_nil_r.
    + exfalso. apply Hnot. set_solver.
  - by exists k.
Qed.

Lemma app_cons_split_r {A} (l1 l2 pre post : list A) (x : A) :
  l1 ++ l2 = pre ++ x :: post → x ∉ l2 →
  ∃ post1, l1 = pre ++ x :: post1 ∧ post = post1 ++ l2.
Proof.
  intros Heq Hnot. apply app_eq_inv in Heq as [(k & H1 & H2)|(k & H1 & H2)].
  - destruct k as [|y k]; simplify_eq/=.
    + exfalso. apply Hnot. set_solver.
    + by exists k.
  - exfalso. apply Hnot. subst l2. set_solver.
Qed.

Lemma send_elem_of (c : Command) (evs : list Event) :
  EvSend c ∈ evs ↔ c ∈ sendsOf evs.
Proof.
  unfold sendsOf. rewrite list_elem_of_omap. split.
  - intros Hin. by exists (EvSend c).
  - intros (ev & Hin & Hev). destruct ev; by simplify_eq.
Qed.

Lemma send_not_elem_of (c c' : Command) (evs : list Event) :
  Forall (eq c') (sendsOf evs) → c ≠ c' → EvSend c ∉ evs.
Proof.
  intros Hall Hne Hin. apply send_elem_of in Hin.
  rewrite Forall_forall in Hall. apply Hne. symmetry. by apply Hall.
Qed.

(** A poll that observes [Failed] ends the loop on the spot. *)
Lemma pollLoop_failed env functionName startTime maxWaitMs fuel w pre post :
  let get := GetFunctionCommand functionName in
  let run := pollLoop env fuel functionName startTime maxWaitMs w in
  trace (run.2) = trace w ++ pre ++ EvSend get :: post →
  observedStatus (replyResult (remote env (trace w ++ pre) get)) = Some "Failed" →
  post = [] ∧ run.1 = Thrown previousUpdateFailed.
Proof.
  intros get run. subst run. revert w pre.
  induction fuel as [|fuel IH]; intros w pre Htrace Hfailed.
  - simpl in Htrace. apply (f_equal length) in Htrace.
    rewrite !length_app in Htrace. simpl in Htrace. lia.
  - rewrite pollLoop_step in *.
    destruct (clock w - startTime <? maxWaitMs).
    2: { simpl in Htrace. apply (f_equal length) in Htrace.
         rewrite !length_app in Htrace. simpl in Htrace. lia. }
    rewrite pollOnce_run in *. fold get in Htrace |- *.
    destruct pre as [|ev pre].
    + (* the poll at hand is the one that observes Failed *)
      rewrite app_nil_r in Hfailed.
      destruct (replyResult (remote env (trace w) get)) as [err|result];
        [done|]. simpl in Hfailed. rewrite Hfailed in *.
      rewrite andb_false_r in *. simpl in *.
      apply app_inv_head in Htrace. by simplify_eq.
    + (* a later poll: this one asked to poll again *)
      destruct (pollLoop_trace env functionName startTime maxWaitMs fuel
                  (afterWait 3000 (afterSend env get w))) as (evs & Hevs & _).
      assert (Hagain :
        trace (pollLoop env fuel functionName startTime maxWaitMs
                 (afterWait 3000 (afterSend env get w))).2
          = trace w ++ (ev :: pre) ++ EvSend get :: post →
        post = [] ∧
        (pollLoop env fuel functionName startTime maxWaitMs
           (afterWait 3000 (afterSend env get w))).1 = Thrown previousUpdateFailed).
      { intros Hrec. rewrite Hevs in Hrec. simpl in Hrec.
        rewrite <- !app_assoc in Hrec. apply app_inv_head in Hrec.
        simpl in Hrec. simplify_eq.
        destruct pre as [|ev' pre]; simplify_eq/=.
        apply (IH _ pre).
        - rewrite Hevs. simpl. by rewrite <- !app_assoc.
        - simpl. by rewrite <- !app_assoc. }
      assert (Hstop : trace (afterSend env get w)
                        = trace w ++ (ev :: pre) ++ EvSend get :: post → False).
      { simpl. intros Hrec. apply app_inv_head in Hrec.
        simplify_eq. by destruct pre. }
      destruct (replyResult (remote env (trace w) get)) as [err|result].
      * destruct (bool_decide _); [by destruct Hstop | by apply Hagain].
      * destruct (_ && _); [by destruct Hstop|].
        destruct (bool_decide _); [by destruct Hstop | by apply Hagain].
Qed.

(** ** What the pieces of an update append to the trace *)

(** The retry policy sends its command one to three times, and more than once
    only after a conflict. *)
Lemma updateWithRetry_trace env command updateType w :
  let run := updateWithRetry env command updateType w in
  ∃ (k : nat) evs,
    trace (run.2) = trace w ++ evs
    ∧ sendsOf evs = replicate k command
    ∧ (1 ≤ k ≤ 3)%nat
    ∧ (k = 1%nat ∨ ∃ e, replyResult (remote env (trace w) command) = inl e
                       ∧ isConflict e = true)
    ∧ fs (run.2) = fs w
    ∧ run.1 ≠ OutOfFuel
    ∧ run.1 ≠ Returned None.
Proof.
  intros run. subst run. rewrite updateWithRetry_unfold. cbv zeta.
  destruct (replyResult (remote env (trace w) command)) as [e1|v1] eqn:R1.
  2: { exists 1%nat, [EvSend command]. split_and!; try done; try lia; eauto. }
  destruct (isConflict e1) eqn:C1.
  2: { exists 1%nat, [EvSend command]. split_and!; try done; try lia; eauto. }
  destruct (replyResult (remote env (trace (afterWait _ _)) command)) as [e2|v2].
  2: { exists 2%nat, [EvSend command; EvWait (waitTime 0); EvSend command].
       simpl. rewrite <- ?app_assoc. split_and!; try done; try lia; eauto. }
  destruct (isConflict e2).
  2: { exists 2%nat, [EvSend command; EvWait (waitTime 0); EvSend command].
       simpl. rewrite <- ?app_assoc. split_and!; try done; try lia; eauto. }
  exists 3%nat, [EvSend command; EvWait (waitTime 0); EvSend command;
                 EvWait (waitTime 1); EvSend command].
  destruct (replyResult (remote env (trace (afterWait _ _)) command)) as [e3|v3];
    simpl; rewrite <- ?app_assoc; split_and!; try done; try lia; eauto.
Qed.

Lemma waitForFunctionReady_unfold env functionName maxWaitMs w :
  waitForFunctionReady env functionName maxWaitMs w =
    pollLoop env (pollFuel maxWaitMs) functionName (clock w) maxWaitMs w.
Proof. done. Qed.

(** A poll loop that returns has just seen [Active] and [Successful]. *)
Lemma pollLoop_ready env functionName startTime maxWaitMs fuel w :
  let get := GetFunctionCommand functionName in
  let run := pollLoop env fuel functionName startTime maxWaitMs w in
  run.1 = Returned tt →
  ∃ pre, trace (run.2) = trace w ++ pre ++ [EvSend get]
    ∧ observedState (replyResult (remote env (trace w ++ pre) get)) = Some "Active"
    ∧ observedStatus (replyResult (remote env (trace w ++ pre) get)) = Some "Successful".
Proof.
  intros get run. subst run. revert w.
  induction fuel as [|fuel IH]; intros w Hret; [done|].
  rewrite pollLoop_step in *.
  destruct (clock w - startTime <? maxWaitMs); [|done].
  rewrite pollOnce_run in *. fold get in Hret |- *.
  assert (Hagain :
    (pollLoop env fuel functionName startTime maxWaitMs
       (afterWait 3000 (afterSend env get w))).1 = Returned tt →
    ∃ pre,
      trace (pollLoop env fuel functionName startTime maxWaitMs
               (afterWait 3000 (afterSend env get w))).2
        = trace w ++ pre ++ [EvSend get]
      ∧ observedState (replyResult (remote env (trace w ++ pre) get)) = Some "Active"
      ∧ observedStatus (replyResult (remote env (trace w ++ pre) get))
          = Some "Successful").
  { intros Hrec. destruct (IH _ Hrec) as (pre & Htr & Hst & Hlu).
    exists ([EvSend get; EvWait 3000] ++ pre).
    simpl in Htr, Hst, Hlu. rewrite <- !app_assoc in Htr, Hst, Hlu.
    by rewrite Htr. }
  destruct (replyResult (remote env (trace w) get)) as [err|result] eqn:R.
  - destruct (bool_decide _); [done | by apply Hagain].
  - destruct (_ && _) eqn:Hready.
    + apply andb_true_iff in Hready as [Hactive Hok].
      apply bool_decide_eq_true in Hactive, Hok.
      exists []. rewrite app_nil_r, R. done.
    + destruct (bool_decide (_ = Some "Failed")); [done | by apply Hagain].
Qed.

Lemma updateFunctionSequential_unfold env functionName zipPath config w bytes :
  fs w !! zipPath = Some bytes →
  updateFunctionSequential env functionName zipPath config w =
    match updateWithRetry env (UpdateFunctionCodeCommand functionName bytes) "code" w with
    | (Returned _, w1) =>
        if configTouched config then
          match waitForFunctionReady env functionName 120000 w1 with
          | (Returned _, w2) =>
              match updateWithRetry env
                      (UpdateFunctionConfigurationCommand (configParams functionName config))
                      "configuration" w2 with
              | (Returned _, w3) => (Returned tt, w3)
              | (Thrown e, w3) => (Thrown e, w3)
              | (OutOfFuel, w3) => (OutOfFuel, w3)
              end
          | (Thrown e, w2) => (Thrown e, w2)
          | (OutOfFuel, w2) => (OutOfFuel, w2)
          end
        else (Returned tt, w1)
    | (Thrown e, w1) => (Thrown e, w1)
    | (OutOfFuel, w1) => (OutOfFuel, w1)
    end.
Proof.
  intros Hfile. unfold updateFunctionSequential.
  unfold bind at 1. unfold readFileSync. rewrite Hfile.
  unfold bind at 1.
  destruct (updateWithRetry _ _ _ w) as [[r1|e1|] w1]; [|done|done].
  destruct (configTouched config); [|done].
  unfold bind at 1.
  destruct (waitForFunctionReady _ _ _ w1) as [[[]|e2|] w2]; [|done|done].
  unfold bind at 1.
  destruct (updateWithRetry _ _ _ w2) as [[r3|e3|] w3]; done.
Qed.

Lemma replicate_not_elem_of {A} (x y : A) (n : nat) : x ≠ y → x ∉ replicate n y.
Proof. intros Hne Hin. apply elem_of_replicate in Hin as [? _]. done. Qed.

Lemma send_not_in_replicate (c c' : Command) (n : nat) (evs : list Event) :
  sendsOf evs = replicate n c' → c ≠ c' → EvSend c ∉ evs.
Proof.
  intros Hs Hne Hin. apply send_elem_of in Hin. rewrite Hs in Hin.
  by apply replicate_not_elem_of in Hin.
Qed.

Lemma trace_no_growth (t : list Event) (pre post : list Event) (ev : Event) :
  t = t ++ pre ++ ev :: post → False.
Proof.
  intros H. apply (f_equal length) in H. rewrite !length_app in H.
  simpl in H. lia.
Qed.

(** C2.  If a poll of the readiness wait observes last-update status
    [Failed], the poller stops right there: the update step fails with the
    error 'Previous update failed', that poll is the last event of the step,
    and no configuration update has been sent. *)
Theorem failed_poll_aborts_update env functionName zipPath config w pre post :
  let get := GetFunctionCommand functionName in
  let run := updateFunctionSequential env functionName zipPath config w in
  trace (run.2) = trace w ++ pre ++ EvSend get :: post →
  observedStatus (replyResult (remote env (trace w ++ pre) get)) = Some "Failed" →
  run.1 = Thrown previousUpdateFailed
  ∧ post = []
  ∧ ∀ c, c ∈ sendsOf (pre ++ EvSend get :: post) → isConfigurationUpdate c = false.
Proof.
  intros get run. subst run.
  destruct (fs w !! zipPath) as [bytes|] eqn:Hfile.
  2: { unfold updateFunctionSequential, bind at 1, readFileSync.
       rewrite Hfile. simpl. intros H. by apply trace_no_growth in H. }
  rewrite (updateFunctionSequential_unfold _ _ _ _ _ bytes Hfile).
  set (code := UpdateFunctionCodeCommand functionName bytes).
  set (cfg := UpdateFunctionConfigurationCommand (configParams functionName config)).
  destruct (updateWithRetry_trace env code "code" w)
    as (k1 & evs1 & Ht1 & Hs1 & _ & _ & _ & _ & _).
  destruct (updateWithRetry env code "code" w) as [[r1|e1|] w1]; simpl in Ht1.
  2,3: intros Htr _; simpl in Htr; rewrite Ht1 in Htr;
       apply app_inv_head in Htr; exfalso;
       apply (send_not_in_replicate get code k1 evs1); [done|done|];
       rewrite Htr; set_solver.
  destruct (configTouched config).
  2: { intros Htr _; simpl in Htr; rewrite Ht1 in Htr.
       apply app_inv_head in Htr. exfalso.
       apply (send_not_in_replicate get code k1 evs1); [done|done|].
       rewrite Htr. set_solver. }
  rewrite waitForFunctionReady_unfold.
  pose proof (pollLoop_failed env functionName (clock w1) 120000 (pollFuel 120000) w1)
    as Hfailed.
  destruct (pollLoop_trace env functionName (clock w1) 120000 (pollFuel 120000) w1)
    as (evs2 & Ht2 & Hs2 & _).
  pose proof (waitForFunctionReady_terminates env functionName 120000 w1) as Hterm.
  rewrite waitForFunctionReady_unfold in Hterm.
  destruct (pollLoop env (pollFuel 120000) functionName (clock w1) 120000 w1)
    as [[[]|e2|] w2]; simpl in Ht2, Hfailed, Hterm.
  - (* the wait returned: no poll of it can have seen Failed *)
    destruct (updateWithRetry_trace env cfg "configuration" w2)
      as (k3 & evs3 & Ht3 & Hs3 & _ & _ & _ & _ & _).
    intros Htr Hobs.
    assert (Hall : trace w ++ evs1 ++ evs2 ++ evs3
                   = trace w ++ pre ++ EvSend get :: post).
    { rewrite <- Htr. destruct (updateWithRetry env cfg "configuration" w2)
        as [[r3|e3|] w3]; simpl in *; rewrite Ht3, Ht2, Ht1;
        by rewrite <- !app_assoc. }
    apply app_inv_head in Hall.
    apply app_cons_split_l in Hall as (pre2 & -> & Hall);
      [|by apply (send_not_in_replicate get code k1 evs1)].
    apply app_cons_split_r in Hall as (post2 & Hall & ->);
      [|by apply (send_not_in_replicate get cfg k3 evs3)].
    subst evs2. exfalso.
    destruct (Hfailed pre2 post2) as [_ ?]; [| |done].
    + rewrite Ht2, Ht1. by rewrite <- !app_assoc.
    + rewrite Ht1. by rewrite <- !app_assoc.
  - intros Htr Hobs. simpl in Htr. rewrite Ht2, Ht1 in Htr.
    rewrite <- !app_assoc in Htr. apply app_inv_head in Htr.
    apply app_cons_split_l in Htr as (pre2 & -> & Htr);
      [|by apply (send_not_in_replicate get code k1 evs1)].
    subst evs2.
    destruct (Hfailed pre2 post) as [-> ->].
    + rewrite Ht2, Ht1. by rewrite <- !app_assoc.
    + rewrite Ht1. by rewrite <- !app_assoc.
    + split_and!; [done..|].
      intros c Hc. rewrite !sendsOf_app, Hs1 in Hc.
      rewrite sendsOf_app in Hs2. apply Forall_app in Hs2 as [Hs2a Hs2b].
      rewrite Forall_forall in Hs2a, Hs2b.
      rewrite !elem_of_app in Hc. destruct Hc as [[Hc|Hc]|Hc].
      * apply elem_of_replicate in Hc as [-> _]. done.
      * apply Hs2a in Hc. by subst c.
      * apply Hs2b in Hc. by subst c.
  - done.
Qed.

Lemma Forall_eq_replicate {A} (x : A) (l : list A) :
  Forall (eq x) l → l = replicate (length l) x.
Proof. induction 1 as [|y l <- _ IH]; simpl; [done|]. by rewrite <- IH. Qed.


(** ** The update step on concrete runs *)



Lemma failed_poll_aborts_update_witness :
  let env := Scenario.play [Scenario.resolved Scenario.plain;
                            Scenario.resolved (Scenario.functionIn "Active" "Failed")] in
  observedStatus
    (replyResult (remote env [EvSend (UpdateFunctionCodeCommand "f" "zip")]
                    (GetFunctionCommand "f"))) = Some "Failed"
  ∧ (updateFunctionSequential env "f" "f.zip" Scenario.withTimeout Scenario.zipOnDisk).1
    = Thrown previousUpdateFailed.
Proof.
  split; [reflexivity|].
  refine (proj1 (failed_poll_aborts_update
                   (Scenario.play [Scenario.resolved Scenario.plain;
                                   Scenario.resolved (Scenario.functionIn "Active" "Failed")])
                   "f" "f.zip" Scenario.withTimeout Scenario.zipOnDisk
                   [EvSend (UpdateFunctionCodeCommand "f" "zip")] [] _ _));
    vm_compute; reflexivity.
Defined.

(** ** Trigger synchronisation *)

Lemma forEachM_ext {A} (f g : A → M unit) (l : list A) :
  (∀ x, f x = g x) → forEachM f l = forEachM g l.
Proof. intros Hfg. induction l as [|x l IH]; simpl; [done|]. by rewrite Hfg, IH. Qed.

Lemma forEach_syncTrigger env functionName existing triggers :
  forEachM (syncTrigger env functionName existing) triggers
  = sendAll env (syncCommand functionName existing <$> triggers).
Proof.
  unfold sendAll. induction triggers as [|t ts IH]; simpl; [done|].
  rewrite IH. f_equal. unfold syncTrigger, syncCommand.
  by destruct (findMapping existing t).
Qed.

Lemma forEach_removeUnconfigured env configuredArns ms :
  forEachM (removeUnconfigured env configuredArns) ms
  = sendAll env (omap (removeCommand configuredArns) ms).
Proof.
  unfold sendAll. induction ms as [|m ms IH]; simpl; [done|].
  rewrite IH. unfold removeUnconfigured, removeCommand.
  by destruct (arnIncluded configuredArns (EventSourceArn m)).
Qed.

Lemma sendAll_cons env c cs w :
  sendAll env (c :: cs) w =
    match replyResult (remote env (trace w) c) with
    | inl e => (Thrown e, afterSend env c w)
    | inr _ => sendAll env cs (afterSend env c w)
    end.
Proof.
  unfold sendAll. simpl. unfold bind. rewrite awaitSend_run.
  by destruct (replyResult _).
Qed.

Lemma sendAll_run env commands w :
  let run := sendAll env commands w in
  ∃ evs,
    trace (run.2) = trace w ++ evs
    ∧ sendsOf evs `prefix_of` commands
    ∧ (run.1 = Returned tt → sendsOf evs = commands)
    ∧ (alwaysResolves env → run.1 = Returned tt)
    ∧ run.1 ≠ OutOfFuel
    ∧ fs (run.2) = fs w.
Proof.
  intros run. subst run. revert w.
  induction commands as [|c cs IH]; intros w.
  - exists []. simpl. rewrite app_nil_r. split_and!; done.
  - rewrite sendAll_cons.
    destruct (replyResult (remote env (trace w) c)) as [e|v] eqn:R.
    + exists [EvSend c]. simpl. split_and!; try done.
      * by apply (prefix_cons c []), prefix_nil.
      * intros Hok. destruct (Hok (trace w) c) as [v Hv]. congruence.
    + destruct (IH (afterSend env c w)) as (evs & Ht & Hp & Hr & Ha & Hf & Hfs).
      exists (EvSend c :: evs). rewrite Ht. simpl. rewrite <- app_assoc.
      split_and!; try done.
      * by apply prefix_cons.
      * intros Hret. by rewrite (Hr Hret).
Qed.

Lemma omap_removeCommand configuredArns (ms : list Mapping) :
  omap (removeCommand configuredArns) ms
  = (λ m, DeleteEventSourceMappingCommand (UUID m))
      <$> filter (λ m, arnIncluded configuredArns (EventSourceArn m) = false) ms.
Proof.
  induction ms as [|m ms IH]; [done|].
  csimpl. unfold removeCommand at 1. rewrite filter_cons.
  destruct (arnIncluded configuredArns (EventSourceArn m)) eqn:Hin.
  - rewrite decide_False by done. apply IH.
  - rewrite decide_True by done. csimpl. by rewrite IH.
Qed.

(** [includes] finds exactly the identifiers of configured triggers. *)
Lemma arnIncluded_false (triggers : list TriggerSpec) (mapping : Mapping) :
  arnIncluded (map queueArn triggers) (EventSourceArn mapping) = false
  ↔ ∀ t, t ∈ triggers → EventSourceArn mapping ≠ Some (queueArn t).
Proof.
  unfold arnIncluded. destruct (EventSourceArn mapping) as [q|].
  - rewrite bool_decide_eq_false. split.
    + intros Hnot t Ht Heq. apply Hnot. simplify_eq.
      change (map queueArn triggers) with (queueArn <$> triggers).
      by apply list_elem_of_fmap_2.
    + intros Hall Hin.
      change (map queueArn triggers) with (queueArn <$> triggers) in Hin.
      apply list_elem_of_fmap in Hin as (t & -> & Ht). by apply (Hall t).
  - split; [intros _ t _; done | done].
Qed.

(** [find] yields a mapping bound to the trigger's queue whenever there is one. *)
Lemma findMapping_Some existing trigger m :
  findMapping existing trigger = Some m →
  m ∈ (EventSourceMappings existing <||> [])
  ∧ EventSourceArn m = Some (queueArn trigger).
Proof.
  unfold findMapping, js_or. destruct (EventSourceMappings existing) as [ms|]; [|done].
  simpl. intros Hfind. apply find_some in Hfind as [Hin Heq].
  apply bool_decide_eq_true in Heq. split; [|done].
  by apply list_elem_of_In.
Qed.

Lemma findMapping_None existing trigger :
  findMapping existing trigger = None →
  ∀ m, m ∈ (EventSourceMappings existing <||> []) →
       EventSourceArn m ≠ Some (queueArn trigger).
Proof.
  unfold findMapping, js_or. destruct (EventSourceMappings existing) as [ms|].
  - simpl. intros Hfind m Hin Heq.
    apply list_elem_of_In in Hin.
    pose proof (find_none _ _ Hfind m Hin) as Hno. simpl in Hno.
    by apply bool_decide_eq_false in Hno.
  - intros _ m Hin. by apply elem_of_nil in Hin.
Qed.

Lemma sendAll_app env (cs1 cs2 : list Command) w :
  (do! sendAll env cs1 in sendAll env cs2) w = sendAll env (cs1 ++ cs2) w.
Proof.
  revert w. induction cs1 as [|c cs1 IH]; intros w; [done|].
  unfold bind. simpl app. rewrite !sendAll_cons.
  destruct (replyResult _); [done|]. by rewrite <- IH.
Qed.

(** A pass with configured triggers is the listing call followed by the
    planned calls, sent in order until one fails. *)
Lemma updateEventSourceMappings_unfold env functionName triggers w :
  triggers ≠ [] →
  updateEventSourceMappings env functionName (Some triggers) w =
    match replyResult (remote env (trace w) (ListEventSourceMappingsCommand functionName)) with
    | inl e => (Thrown e, afterSend env (ListEventSourceMappingsCommand functionName) w)
    | inr existing =>
        sendAll env
          ((syncCommand functionName existing <$> triggers)
           ++ omap (removeCommand (map queueArn triggers))
                (EventSourceMappings existing <||> []))
          (afterSend env (ListEventSourceMappingsCommand functionName) w)
    end.
Proof.
  intros Hne. unfold updateEventSourceMappings. simpl js_default.
  rewrite bool_decide_eq_false_2 by (by destruct triggers).
  unfold bind at 1. rewrite awaitSend_run.
  destruct (replyResult _) as [e|existing]; [done|].
  rewrite forEach_syncTrigger, forEach_removeUnconfigured.
  apply sendAll_app.
Qed.

Lemma syncCommand_matches functionName existing (triggers : list TriggerSpec) :
  Forall2
    (λ t c,
       (∃ m, m ∈ (EventSourceMappings existing <||> [])
             ∧ EventSourceArn m = Some (queueArn t)
             ∧ c = UpdateEventSourceMappingCommand (UUID m) (settingsOf t))
       ∨ ((∀ m, m ∈ (EventSourceMappings existing <||> []) →
                EventSourceArn m ≠ Some (queueArn t))
          ∧ c = CreateEventSourceMappingCommand (queueArn t) functionName (settingsOf t)))
    triggers (syncCommand functionName existing <$> triggers).
Proof.
  induction triggers as [|t ts IH]; csimpl; constructor; [|done].
  unfold syncCommand. destruct (findMapping existing t) as [m|] eqn:Hfind.
  - left. exists m. apply findMapping_Some in Hfind as [? ?]. done.
  - right. split; [|done]. by apply findMapping_None.
Qed.

(** C4, as amended.  In a pass with a non-empty trigger list, when the
    listing call fails nothing else is sent.  Otherwise the calls planned are
    the listing, then for each configured trigger, in order, one update (its
    queue has a remote mapping) or one create (it has none), then one delete
    for each remote mapping bound to no configured queue, in listing order.
    The calls sent are a prefix of this plan, all of it when the pass
    returns, and the pass returns whenever the remote rejects no call. *)
Theorem sync_call_sequence env functionName triggers w :
  triggers ≠ [] →
  let list := ListEventSourceMappingsCommand functionName in
  let run := updateEventSourceMappings env functionName (Some triggers) w in
  match replyResult (remote env (trace w) list) with
  | inl e => run = (Thrown e, afterSend env list w)
  | inr existing =>
      let remoteMappings := EventSourceMappings existing <||> [] in
      let deletes :=
        (λ m, DeleteEventSourceMappingCommand (UUID m))
          <$> filter (λ m, Forall (λ t, EventSourceArn m ≠ Some (queueArn t)) triggers)
                remoteMappings in
      ∃ upserts evs,
        Forall2
          (λ t c,
             (∃ m, m ∈ remoteMappings
                   ∧ EventSourceArn m = Some (queueArn t)
                   ∧ c = UpdateEventSourceMappingCommand (UUID m) (settingsOf t))
             ∨ ((∀ m, m ∈ remoteMappings → EventSourceArn m ≠ Some (queueArn t))
                ∧ c = CreateEventSourceMappingCommand (queueArn t) functionName
                        (settingsOf t)))
          triggers upserts
        ∧ trace (run.2) = trace w ++ evs
        ∧ sendsOf evs `prefix_of` (list :: upserts ++ deletes)
        ∧ (run.1 = Returned tt → sendsOf evs = list :: upserts ++ deletes)
        ∧ (alwaysResolves env → run.1 = Returned tt)
  end.
Proof.
  intros Hne list run. subst run.
  rewrite updateEventSourceMappings_unfold by done. fold list.
  destruct (replyResult (remote env (trace w) list)) as [e|existing]; [done|].
  intros remoteMappings deletes.
  assert (Hdel : omap (removeCommand (map queueArn triggers)) remoteMappings = deletes).
  { rewrite omap_removeCommand. unfold deletes. f_equal.
    apply list_filter_iff. intros m. rewrite arnIncluded_false, Forall_forall. done. }
  fold remoteMappings. rewrite Hdel.
  destruct (sendAll_run env ((syncCommand functionName existing <$> triggers) ++ deletes)
              (afterSend env list w)) as (evs & Ht & Hp & Hr & Ha & _ & _).
  exists (syncCommand functionName existing <$> triggers), (EvSend list :: evs).
  split_and!.
  - apply syncCommand_matches.
  - rewrite Ht. simpl. by rewrite <- app_assoc.
  - by apply prefix_cons.
  - intros Hret. simpl. by rewrite (Hr Hret).
  - done.
Qed.

Lemma sync_call_sequence_witness :
  [Scenario.queueA; Scenario.queueB] ≠ []
  ∧ ∃ evs,
      trace (updateEventSourceMappings
               (Scenario.play
                  [Scenario.resolved (Scenario.mappings [Scenario.mappingA; Scenario.mappingC])])
               "f" (Some [Scenario.queueA; Scenario.queueB]) Scenario.freshWorld).2
        = trace Scenario.freshWorld ++ evs
      ∧ sendsOf evs
        = [ListEventSourceMappingsCommand "f";
           UpdateEventSourceMappingCommand "uuid-A" (mkSettings 10 0 true);
           CreateEventSourceMappingCommand "arn:B" "f" (mkSettings 5 2 false);
           DeleteEventSourceMappingCommand "uuid-C"].
Proof.
  split; [discriminate|].
  destruct (sync_call_sequence
              (Scenario.play
                 [Scenario.resolved (Scenario.mappings [Scenario.mappingA; Scenario.mappingC])])
              "f" [Scenario.queueA; Scenario.queueB] Scenario.freshWorld
              ltac:(discriminate))
    as (upserts & evs & _ & Htrace & _).
  exists evs. split; [exact Htrace|].
  change (trace Scenario.freshWorld ++ evs) with evs in Htrace.
  rewrite <- Htrace. reflexivity.
Defined.

(** C4, counterexample.  Two configured queues, the remote has mappings for
    A and C, and the create call for B is rejected: the pass stops there and
    the mapping of C is never deleted. *)
Lemma rejected_call_stops_the_pass :
  let env := Scenario.play
               [Scenario.resolved (Scenario.mappings [Scenario.mappingA; Scenario.mappingC]);
                Scenario.resolved Scenario.plain;
                Scenario.denied] in
  let run := updateEventSourceMappings env "f"
               (Some [Scenario.queueA; Scenario.queueB]) Scenario.freshWorld in
  sendsOf (trace (run.2))
  = [ListEventSourceMappingsCommand "f";
     UpdateEventSourceMappingCommand "uuid-A" (mkSettings 10 0 true);
     CreateEventSourceMappingCommand "arn:B" "f" (mkSettings 5 2 false)]
  ∧ run.1 = Thrown (mkError "AccessDeniedException" "not authorized")
  ∧ arnIncluded (map queueArn [Scenario.queueA; Scenario.queueB])
      (EventSourceArn Scenario.mappingC) = false
  ∧ DeleteEventSourceMappingCommand (UUID Scenario.mappingC) ∉ sendsOf (trace (run.2)).
Proof.
  vm_compute. split_and!; try reflexivity.
  intros Hin. repeat (apply elem_of_cons in Hin as [Hin|Hin]; [discriminate|]).
  by apply elem_of_nil in Hin.
Qed.

(** C7.  A pass whose trigger list is empty or absent makes no remote call
    and leaves the world as it was; so does the trigger step of a deployment
    whose configuration has no trigger. *)
Theorem empty_trigger_list_no_calls env functionName config w :
  updateEventSourceMappings env functionName (Some []) w = (Returned tt, w)
  ∧ updateEventSourceMappings env functionName None w = (Returned tt, w)
  ∧ (js_default (sqsTriggers config) [] = [] →
     syncTriggers env functionName config w = (Returned tt, w)).
Proof.
  split_and!; [done|done|].
  unfold syncTriggers. destruct (sqsTriggers config) as [[|t ts]|]; done.
Qed.

(** ** Frames: what a computation can touch *)

Lemma Framed_ret {A} P (a : A) : Framed P (ret a).
Proof. intros w. split; [done|]. exists []. by rewrite app_nil_r. Qed.

Lemma Framed_throw {A} P e : Framed P (@throw A e).
Proof. intros w. split; [done|]. exists []. by rewrite app_nil_r. Qed.

Lemma Framed_bind {A B} P (m : M A) (k : A → M B) :
  Framed P m → (∀ a, Framed P (k a)) → Framed P (bind m k).
Proof.
  intros Hm Hk w. unfold bind. destruct (Hm w) as (Hfs & evs & Ht & Hall).
  destruct (m w) as [[a|e|] w1]; simpl in *; [|by eauto..].
  destruct (Hk a w1) as (Hfs' & evs' & Ht' & Hall').
  split; [congruence|]. exists (evs ++ evs'). rewrite Ht', Ht, <- app_assoc.
  split; [done|]. by apply Forall_app.
Qed.

Lemma Framed_try_catch {A} P (m : M A) (h : JsError → M A) :
  Framed P m → (∀ e, Framed P (h e)) → Framed P (try_catch m h).
Proof.
  intros Hm Hh w. unfold try_catch. destruct (Hm w) as (Hfs & evs & Ht & Hall).
  destruct (m w) as [[a|e|] w1]; simpl in *; [by eauto| |by eauto].
  destruct (Hh e w1) as (Hfs' & evs' & Ht' & Hall').
  split; [congruence|]. exists (evs ++ evs'). rewrite Ht', Ht, <- app_assoc.
  split; [done|]. by apply Forall_app.
Qed.

Lemma Framed_if {A} P (b : bool) (m1 m2 : M A) :
  Framed P m1 → Framed P m2 → Framed P (if b then m1 else m2).
Proof. by destruct b. Qed.

Lemma Framed_awaitSend env P c : P c → Framed P (awaitSend env c).
Proof.
  intros HP w. rewrite awaitSend_run. split; [done|].
  exists [EvSend c]. split; [done|]. by repeat constructor.
Qed.

Lemma Framed_sleep P ms : Framed P (sleep ms).
Proof.
  intros w. rewrite sleep_run. split; [done|].
  exists [EvWait ms]. split; [done|]. by repeat constructor.
Qed.

Lemma Framed_dateNow P : Framed P dateNow.
Proof. intros w. split; [done|]. exists []. by rewrite app_nil_r. Qed.

Lemma Framed_readFileSync P path : Framed P (readFileSync path).
Proof.
  intros w. unfold readFileSync. destruct (fs w !! path); simpl;
    (split; [done|]); exists []; by rewrite app_nil_r.
Qed.

Lemma Framed_forEachM {A} P (f : A → M unit) (l : list A) :
  (∀ x, Framed P (f x)) → Framed P (forEachM f l).
Proof.
  intros Hf. induction l as [|x l IH]; simpl.
  - apply Framed_ret.
  - apply Framed_bind; [apply Hf | intros _; apply IH].
Qed.

Lemma Framed_weaken {A} (P Q : Command → Prop) (m : M A) :
  (∀ c, P c → Q c) → Framed P m → Framed Q m.
Proof.
  intros HPQ Hm w. destruct (Hm w) as (Hfs & evs & Ht & Hall).
  split; [done|]. exists evs. split; [done|].
  eapply Forall_impl; [exact Hall|]. intros [] ?; simpl in *; auto.
Qed.

#[export] Hint Resolve Framed_ret Framed_throw Framed_bind Framed_try_catch
  Framed_if Framed_awaitSend Framed_sleep Framed_dateNow Framed_readFileSync
  Framed_forEachM : frames.

Lemma Terminates_ret {A} (a : A) : Terminates (ret a).
Proof. by intros w. Qed.

Lemma Terminates_throw {A} e : Terminates (@throw A e).
Proof. by intros w. Qed.

Lemma Terminates_bind {A B} (m : M A) (k : A → M B) :
  Terminates m → (∀ a, Terminates (k a)) → Terminates (bind m k).
Proof.
  intros Hm Hk w. unfold bind. specialize (Hm w).
  destruct (m w) as [[a|e|] w1]; simpl in *; [apply Hk|done|done].
Qed.

Lemma Terminates_try_catch {A} (m : M A) (h : JsError → M A) :
  Terminates m → (∀ e, Terminates (h e)) → Terminates (try_catch m h).
Proof.
  intros Hm Hh w. unfold try_catch. specialize (Hm w).
  destruct (m w) as [[a|e|] w1]; simpl in *; [done|apply Hh|done].
Qed.

Lemma Terminates_try_finally {A} (m : M A) (f : M unit) :
  Terminates m → Terminates f → Terminates (try_finally m f).
Proof.
  intros Hm Hf w. unfold try_finally. specialize (Hm w).
  destruct (m w) as [[a|e|] w1]; simpl in *; [| |done];
    specialize (Hf w1); by destruct (f w1) as [[[]|e'|] w2].
Qed.

Lemma Terminates_if {A} (b : bool) (m1 m2 : M A) :
  Terminates m1 → Terminates m2 → Terminates (if b then m1 else m2).
Proof. by destruct b. Qed.

Lemma Terminates_awaitSend env c : Terminates (awaitSend env c).
Proof. intros w. rewrite awaitSend_run. by destruct (replyResult _). Qed.

Lemma Terminates_sleep ms : Terminates (sleep ms).
Proof. by intros w. Qed.

Lemma Terminates_readFileSync path : Terminates (readFileSync path).
Proof. intros w. unfold readFileSync. by destruct (fs w !! path). Qed.

Lemma Terminates_forEachM {A} (f : A → M unit) (l : list A) :
  (∀ x, Terminates (f x)) → Terminates (forEachM f l).
Proof.
  intros Hf. induction l as [|x l IH]; simpl.
  - apply Terminates_ret.
  - apply Terminates_bind; [apply Hf | intros _; apply IH].
Qed.

#[export] Hint Resolve Terminates_ret Terminates_throw Terminates_bind
  Terminates_try_catch Terminates_try_finally Terminates_if Terminates_awaitSend
  Terminates_sleep Terminates_readFileSync Terminates_forEachM
  waitForFunctionReady_terminates : frames.

Lemma Framed_outOfFuel {A} P : Framed P (@outOfFuel A).
Proof. intros w. split; [done|]. exists []. by rewrite app_nil_r. Qed.

Lemma Framed_retryLoop env P remaining i command :
  P command → Framed P (retryLoop env remaining i command).
Proof.
  intros HP. revert i. induction remaining as [|n IH]; intros i; simpl.
  - apply Framed_ret.
  - apply Framed_try_catch; [eauto with frames|].
    intros e. apply Framed_if; eauto with frames.
Qed.

Lemma Terminates_retryLoop env remaining i command :
  Terminates (retryLoop env remaining i command).
Proof.
  revert i. induction remaining as [|n IH]; intros i; simpl.
  - apply Terminates_ret.
  - apply Terminates_try_catch; [eauto with frames|].
    intros e. apply Terminates_if; eauto with frames.
Qed.

Lemma Framed_updateWithRetry env P command updateType :
  P command → Framed P (updateWithRetry env command updateType).
Proof. apply Framed_retryLoop. Qed.

Lemma Terminates_updateWithRetry env command updateType :
  Terminates (updateWithRetry env command updateType).
Proof. apply Terminates_retryLoop. Qed.

Lemma Framed_pollOnce env P functionName :
  P (GetFunctionCommand functionName) → Framed P (pollOnce env functionName).
Proof.
  intros HP. unfold pollOnce. apply Framed_try_catch.
  - apply Framed_bind; [eauto with frames|]. intros result.
    repeat apply Framed_if; eauto with frames.
  - intros e. apply Framed_if; eauto with frames.
Qed.

Lemma Framed_pollLoop env P fuel functionName startTime maxWaitMs :
  P (GetFunctionCommand functionName) →
  Framed P (pollLoop env fuel functionName startTime maxWaitMs).
Proof.
  intros HP. induction fuel as [|fuel IH]; simpl.
  - apply Framed_outOfFuel.
  - apply Framed_bind; [eauto with frames|]. intros now.
    apply Framed_if; [|eauto with frames].
    apply Framed_bind; [by apply Framed_pollOnce|].
    intros []; eauto with frames.
Qed.

Lemma Framed_waitForFunctionReady env P functionName maxWaitMs :
  P (GetFunctionCommand functionName) →
  Framed P (waitForFunctionReady env functionName maxWaitMs).
Proof.
  intros HP. unfold waitForFunctionReady.
  apply Framed_bind; [eauto with frames|]. intros startTime.
  by apply Framed_pollLoop.
Qed.

#[export] Hint Resolve Framed_updateWithRetry Terminates_updateWithRetry
  Framed_waitForFunctionReady : frames.

Lemma Framed_updateFunctionSequential env functionName zipPath config :
  Framed isUpdateStep (updateFunctionSequential env functionName zipPath config).
Proof.
  unfold updateFunctionSequential.
  apply Framed_bind; [eauto with frames|]. intros zipBuffer.
  apply Framed_bind; [by apply Framed_updateWithRetry|]. intros _.
  apply Framed_if; [|eauto with frames].
  apply Framed_bind; [by apply Framed_waitForFunctionReady|]. intros _.
  apply Framed_bind; [by apply Framed_updateWithRetry|]. eauto with frames.
Qed.

Lemma Terminates_updateFunctionSequential env functionName zipPath config :
  Terminates (updateFunctionSequential env functionName zipPath config).
Proof.
  unfold updateFunctionSequential.
  apply Terminates_bind; [eauto with frames|]. intros zipBuffer.
  apply Terminates_bind; [eauto with frames|]. intros _.
  apply Terminates_if; [|eauto with frames].
  apply Terminates_bind; [intros w; apply waitForFunctionReady_terminates|].
  intros _. apply Terminates_bind; eauto with frames.
Qed.

Lemma Framed_updateEventSourceMappings env functionName triggers :
  Framed (λ c, isMappingCommand c = true)
    (updateEventSourceMappings env functionName triggers).
Proof.
  unfold updateEventSourceMappings. apply Framed_if; [eauto with frames|].
  apply Framed_bind; [by apply Framed_awaitSend|]. intros existing.
  apply Framed_bind.
  - apply Framed_forEachM. intros t. unfold syncTrigger.
    destruct (findMapping existing t);
      (apply Framed_bind; [by apply Framed_awaitSend | eauto with frames]).
  - intros _. apply Framed_forEachM. intros m. unfold removeUnconfigured.
    apply Framed_if; [|eauto with frames].
    apply Framed_bind; [by apply Framed_awaitSend | eauto with frames].
Qed.

Lemma Terminates_updateEventSourceMappings env functionName triggers :
  Terminates (updateEventSourceMappings env functionName triggers).
Proof.
  unfold updateEventSourceMappings. apply Terminates_if; [eauto with frames|].
  apply Terminates_bind; [eauto with frames|]. intros existing.
  apply Terminates_bind.
  - apply Terminates_forEachM. intros t. unfold syncTrigger.
    destruct (findMapping existing t); eauto with frames.
  - intros _. apply Terminates_forEachM. intros m. unfold removeUnconfigured.
    eauto with frames.
Qed.

Lemma Framed_syncTriggers env functionName config :
  Framed (λ c, isMappingCommand c = true) (syncTriggers env functionName config).
Proof.
  unfold syncTriggers. apply Framed_if; [|eauto with frames].
  apply Framed_updateEventSourceMappings.
Qed.

Lemma Terminates_syncTriggers env functionName config :
  Terminates (syncTriggers env functionName config).
Proof.
  unfold syncTriggers. apply Terminates_if; [|eauto with frames].
  apply Terminates_updateEventSourceMappings.
Qed.

Lemma Framed_functionExists env functionName :
  Framed (λ c, c = GetFunctionCommand functionName) (functionExists env functionName).
Proof.
  unfold functionExists. apply Framed_try_catch.
  - apply Framed_bind; [by apply Framed_awaitSend | eauto with frames].
  - intros e. apply Framed_if; eauto with frames.
Qed.

Lemma Terminates_functionExists env functionName :
  Terminates (functionExists env functionName).
Proof. unfold functionExists. eauto 10 with frames. Qed.

Lemma Framed_createFunction env config zipPath :
  Framed (λ c, isCreateFunction c = true) (createFunction env config zipPath).
Proof.
  unfold createFunction. apply Framed_bind; [eauto with frames|].
  intros zipBuffer. by apply Framed_awaitSend.
Qed.

Lemma Terminates_createFunction env config zipPath :
  Terminates (createFunction env config zipPath).
Proof. unfold createFunction. eauto with frames. Qed.

#[export] Hint Resolve Terminates_updateFunctionSequential
  Terminates_syncTriggers Terminates_functionExists Terminates_createFunction
  : frames.

(** ** The deployment run *)

Lemma Framed_reconcile env fname zipPath config :
  Framed (λ _, True) (reconcile env fname zipPath config).
Proof.
  unfold reconcile.
  apply Framed_bind.
  { eapply Framed_weaken; [|apply Framed_functionExists]. done. }
  intros []; [|apply Framed_if; [eauto with frames|]];
    (apply Framed_bind;
     [|intros _; eapply Framed_weaken; [|apply Framed_syncTriggers]; done]).
  - eapply Framed_weaken; [|apply Framed_updateFunctionSequential]. done.
  - eapply Framed_weaken; [|apply Framed_createFunction]. done.
Qed.

Lemma Terminates_reconcile env fname zipPath config :
  Terminates (reconcile env fname zipPath config).
Proof.
  unfold reconcile. apply Terminates_bind; [eauto with frames|].
  intros []; eauto 10 with frames.
Qed.

Lemma cleanup_run zipPath w :
  cleanup zipPath w =
    match fs w !! zipPath with
    | Some _ =>
        (Returned tt,
         mkWorld (clock w) (delete zipPath (fs w)) (trace w ++ [EvUnlink zipPath]))
    | None => (Returned tt, w)
    end.
Proof.
  unfold cleanup, bind, existsSync, unlinkSync.
  destruct (fs w !! zipPath) as [bytes|] eqn:Hfile.
  - rewrite bool_decide_eq_true_2 by eauto. by rewrite Hfile.
  - rewrite bool_decide_eq_false_2; [done|]. by intros [? ?].
Qed.

Lemma deploy_unfold env config w fname bytes :
  functionName config = Some fname → truthy fname = true →
  builds env config bytes →
  deploy env config w =
    try_finally (reconcile env fname (zipPathOf config) config)
      (cleanup (zipPathOf config)) (afterZip (zipPathOf config) bytes w).
Proof.
  intros Hname Htruthy Hbuild. unfold deploy, builds, zipPathOf in *.
  rewrite Hname in *. simpl js_default in *.
  unfold truthy at 1, truthy_option. rewrite Htruthy.
  change (js_default (Some fname) EmptyString) with fname.
  simpl negb. cbv iota.
  unfold bind at 1, createZip. by rewrite Hbuild.
Qed.

(** The [try] block followed by the [finally] block, once the archive is on
    disk: the archive is unlinked whatever the block did. *)
Lemma reconcile_then_cleanup env fname zipPath bytes config w :
  let body := reconcile env fname zipPath config (afterZip zipPath bytes w) in
  let run := try_finally (reconcile env fname zipPath config) (cleanup zipPath)
               (afterZip zipPath bytes w) in
  run.1 = body.1
  ∧ body.1 ≠ OutOfFuel
  ∧ clock (run.2) = clock (body.2)
  ∧ fs (run.2) = delete zipPath (fs w)
  ∧ trace (run.2) = trace (body.2) ++ [EvUnlink zipPath]
  ∧ ∃ evs, trace (body.2) = trace w ++ [EvZip zipPath] ++ evs
           ∧ Forall (remoteEvent (λ _, True)) evs.
Proof.
  intros body run. subst body run. unfold try_finally.
  destruct (Framed_reconcile env fname zipPath config (afterZip zipPath bytes w))
    as (Hfs & evs & Ht & Hall).
  pose proof (Terminates_reconcile env fname zipPath config (afterZip zipPath bytes w))
    as Hterm.
  destruct (reconcile env fname zipPath config (afterZip zipPath bytes w))
    as [out w1]; simpl in *.
  assert (Hfile : fs w1 !! zipPath = Some bytes).
  { rewrite Hfs. apply lookup_insert_eq. }
  assert (Hdel : delete zipPath (fs w1) = delete zipPath (fs w)).
  { rewrite Hfs. apply delete_insert_eq. }
  rewrite cleanup_run, Hfile.
  destruct out as [[]|e|]; [| |done]; simpl;
    (split_and!; [done..|]); exists evs; by rewrite Ht, <- app_assoc.
Qed.

(** C8.  Once the archive has been built, the run ends with the archive gone
    from the file system, on success and on failure alike; the archive is
    unlinked after the remote calls and before the command line reports a
    failure and exits. *)
Theorem artifact_removed env config w fname bytes :
  functionName config = Some fname → truthy fname = true →
  builds env config bytes →
  let zipPath := zipPathOf config in
  let run := deploy env config w in
  let session := cli env config w in
  run.1 ≠ OutOfFuel
  ∧ fs (run.2) !! zipPath = None
  ∧ fs (session.2) !! zipPath = None
  ∧ ∃ evs,
      Forall (remoteEvent (λ _, True)) evs
      ∧ trace (run.2) = trace w ++ [EvZip zipPath] ++ evs ++ [EvUnlink zipPath]
      ∧ trace (session.2)
        = trace (run.2)
          ++ match run.1 with
             | Thrown e => [EvReport (message e); EvExit 1]
             | _ => []
             end.
Proof.
  intros Hname Htruthy Hbuild zipPath run session. subst run session.
  unfold cli, try_catch.
  rewrite (deploy_unfold env config w fname bytes) by done. fold zipPath.
  destruct (reconcile_then_cleanup env fname zipPath bytes config w)
    as (Hout & Hterm & _ & Hfs & Ht & evs & Hbody & Hall).
  rewrite <- Hout in Hterm.
  destruct (try_finally _ _ _) as [out w1]; simpl in *.
  assert (Hgone : fs w1 !! zipPath = None).
  { rewrite Hfs. apply lookup_delete_eq. }
  split_and!; [done|done| |].
  - by destruct out.
  - exists evs. split; [done|]. split.
    + rewrite Ht, Hbody. by rewrite <- !app_assoc.
    + destruct out; simpl; by rewrite ?app_nil_r, <- ?app_assoc.
Qed.

Lemma functionExists_run env functionName w :
  functionExists env functionName w =
    (match replyResult (remote env (trace w) (GetFunctionCommand functionName)) with
     | inr _ => Returned true
     | inl e => if isNotFound e then Returned false else Thrown e
     end, afterSend env (GetFunctionCommand functionName) w).
Proof.
  unfold functionExists, try_catch, bind. rewrite awaitSend_run.
  destruct (replyResult _) as [e|v]; [|done]. by destruct (isNotFound e).
Qed.

(** C5.  When the function does not exist (the existence query is answered
    with ResourceNotFoundException) and the configuration has no role, the
    run fails with 'roleArn is required for creating new functions'; the
    existence query is its only remote call, so nothing mutating is sent. *)
Theorem missing_role_rejected env config w fname bytes e :
  functionName config = Some fname → truthy fname = true →
  builds env config bytes →
  let zipPath := zipPathOf config in
  let get := GetFunctionCommand fname in
  replyResult (remote env (trace w ++ [EvZip zipPath]) get) = inl e →
  isNotFound e = true →
  truthy (roleArn config) = false →
  let run := deploy env config w in
  run.1 = Thrown roleArnRequired
  ∧ trace (run.2) = trace w ++ [EvZip zipPath; EvSend get; EvUnlink zipPath]
  ∧ Forall (λ c, isMutating c = false) (sendsOf [EvZip zipPath; EvSend get; EvUnlink zipPath]).
Proof.
  intros Hname Htruthy Hbuild zipPath get Hreply Hnf Hrole run. subst run.
  rewrite (deploy_unfold env config w fname bytes) by done. fold zipPath.
  destruct (reconcile_then_cleanup env fname zipPath bytes config w)
    as (Hout & _ & _ & _ & Ht & _).
  assert (Hbody : reconcile env fname zipPath config (afterZip zipPath bytes w)
                  = (Thrown roleArnRequired, afterSend env get (afterZip zipPath bytes w))).
  { unfold reconcile, bind. rewrite functionExists_run. fold get.
    simpl trace. rewrite Hreply, Hnf, Hrole. done. }
  rewrite Hbody in Hout, Ht. simpl in Hout, Ht.
  split_and!.
  - done.
  - rewrite Ht. by rewrite <- !app_assoc.
  - by repeat constructor.
Qed.

(** [o || d] keeps a truthy value and defaults an absent one. *)
Lemma js_or_truthy {A} `{Truthy A} (o : option A) (d v : A) :
  o = Some v → truthy v = true → o <||> d = v.
Proof. intros -> Hv. unfold js_or. by rewrite Hv. Qed.

Lemma js_or_None {A} `{Truthy A} (d : A) : None <||> d = d.
Proof. done. Qed.

Lemma js_or_falsy {A} `{Truthy A} (o : option A) (d : A) :
  truthy o = false → o <||> d = d.
Proof.
  unfold js_or. destruct o as [v|]; [|done].
  unfold truthy at 1, truthy_option. by intros ->.
Qed.

Lemma createFunction_run env config zipPath w bytes :
  fs w !! zipPath = Some bytes →
  createFunction env config zipPath w =
    (match replyResult (remote env (trace w)
                          (CreateFunctionCommand (createParams config bytes))) with
     | inl e => Thrown e
     | inr v => Returned v
     end, afterSend env (CreateFunctionCommand (createParams config bytes)) w).
Proof.
  intros Hfile. unfold createFunction, bind, readFileSync. rewrite Hfile.
  apply awaitSend_run.
Qed.

(** C6, as amended.  When the function does not exist and a truthy role is
    configured, the run sends the existence query, then one create call, then
    event-source-mapping calls only: no code update, configuration update or
    poll.  The create call carries the function name, the role and the
    archive; for each unset field its default (handler 'lambda.handler',
    timeout 30, memory 128, no layers, runtime 'nodejs22.x', description
    'Deployed with lambda-deployer', no environment); each supplied field
    whose value is truthy, layers and environment whenever supplied; and the
    default in place of a supplied falsy value (0 for timeout and memory, ''
    for handler, runtime and description). *)
Theorem create_path env config w fname bytes e :
  functionName config = Some fname → truthy fname = true →
  builds env config bytes →
  let zipPath := zipPathOf config in
  let get := GetFunctionCommand fname in
  replyResult (remote env (trace w ++ [EvZip zipPath]) get) = inl e →
  isNotFound e = true →
  truthy (roleArn config) = true →
  let params := createParams config bytes in
  let run := deploy env config w in
  (∃ evs,
     trace (run.2)
     = trace w ++ [EvZip zipPath; EvSend get; EvSend (CreateFunctionCommand params)]
         ++ evs ++ [EvUnlink zipPath]
     ∧ Forall (remoteEvent (λ c, isMappingCommand c = true)) evs)
  ∧ cf_FunctionName params = Some fname
  ∧ cf_Role params = roleArn config
  ∧ cf_Code_ZipFile params = bytes
  ∧ (handler config = None → cf_Handler params = "lambda.handler")
  ∧ (timeout config = None → cf_Timeout params = 30)
  ∧ (memorySize config = None → cf_MemorySize params = 128)
  ∧ (layers config = None → cf_Layers params = [])
  ∧ (runtime config = None → cf_Runtime params = "nodejs22.x")
  ∧ (description config = None →
     cf_Description params = "Deployed with lambda-deployer")
  ∧ (environment config = None → cf_Environment params = None)
  ∧ (∀ v, handler config = Some v → truthy v = true → cf_Handler params = v)
  ∧ (∀ v, timeout config = Some v → truthy v = true → cf_Timeout params = v)
  ∧ (∀ v, memorySize config = Some v → truthy v = true → cf_MemorySize params = v)
  ∧ (∀ v, layers config = Some v → cf_Layers params = v)
  ∧ (∀ v, runtime config = Some v → truthy v = true → cf_Runtime params = v)
  ∧ (∀ v, description config = Some v → truthy v = true → cf_Description params = v)
  ∧ (∀ v, environment config = Some v → cf_Environment params = Some v)
  ∧ (∀ v, handler config = Some v → truthy v = false →
          cf_Handler params = "lambda.handler")
  ∧ (∀ v, timeout config = Some v → truthy v = false → cf_Timeout params = 30)
  ∧ (∀ v, memorySize config = Some v → truthy v = false → cf_MemorySize params = 128)
  ∧ (∀ v, runtime config = Some v → truthy v = false → cf_Runtime params = "nodejs22.x")
  ∧ (∀ v, description config = Some v → truthy v = false →
          cf_Description params = "Deployed with lambda-deployer")
  ∧ (handler config = Some EmptyString → cf_Handler params = "lambda.handler")
  ∧ (timeout config = Some 0 → cf_Timeout params = 30)
  ∧ (memorySize config = Some 0 → cf_MemorySize params = 128)
  ∧ (runtime config = Some EmptyString → cf_Runtime params = "nodejs22.x")
  ∧ (description config = Some EmptyString →
     cf_Description params = "Deployed with lambda-deployer").
Proof.
  intros Hname Htruthy Hbuild zipPath get Hreply Hnf Hrole params run. subst run.
  split.
  - rewrite (deploy_unfold env config w fname bytes) by done. fold zipPath.
    destruct (reconcile_then_cleanup env fname zipPath bytes config w)
      as (_ & _ & _ & _ & Ht & _).
    set (w1 := afterSend env get (afterZip zipPath bytes w)).
    set (w2 := afterSend env (CreateFunctionCommand params) w1).
    assert (Hbody :
      reconcile env fname zipPath config (afterZip zipPath bytes w)
      = match replyResult (remote env (trace w1) (CreateFunctionCommand params)) with
        | inl e' => (Thrown e', w2)
        | inr _ => syncTriggers env fname config w2
        end).
    { unfold reconcile. unfold bind at 1. rewrite functionExists_run. fold get.
      simpl trace. rewrite Hreply, Hnf, Hrole.
      change (negb true) with false. cbv iota. unfold bind at 1.
      rewrite (createFunction_run env config zipPath _ bytes)
        by (simpl; apply lookup_insert_eq).
      unfold w2, w1, params. simpl trace.
      by destruct (replyResult (remote env _ (CreateFunctionCommand _))). }
    rewrite Hbody in Ht.
    destruct (Framed_syncTriggers env fname config w2) as (_ & evs & Hsync & Hall).
    destruct (replyResult (remote env (trace w1) (CreateFunctionCommand params))).
    + exists []. split; [|done]. rewrite Ht. simpl. by rewrite <- !app_assoc.
    + exists evs. split; [|done]. rewrite Ht, Hsync. simpl.
      by rewrite <- !app_assoc.
  - unfold params, createParams, environmentParam. simpl.
    split_and!; try done;
      first [ by intros ->
            | by intros v ->
            | intros v; apply js_or_truthy
            | intros v -> Hfalsy; unfold js_or; by rewrite Hfalsy ].
Qed.

(** C6, counterexample.  New function, role supplied, [description: '']
    supplied: the create call carries the default description, not the
    supplied one. *)
Lemma supplied_empty_description_not_carried :
  let env := Scenario.play [Scenario.notFound] in
  let run := deploy env Scenario.emptyDescription Scenario.freshWorld in
  description Scenario.emptyDescription = Some EmptyString
  ∧ ∃ params,
      sendsOf (trace (run.2)) = [GetFunctionCommand "f"; CreateFunctionCommand params]
      ∧ cf_Description params = "Deployed with lambda-deployer"
      ∧ cf_Description params ≠ EmptyString.
Proof.
  split; [reflexivity|].
  exists (createParams Scenario.emptyDescription "zip").
  vm_compute. split_and!; [reflexivity|reflexivity|discriminate].
Qed.

Lemma artifact_removed_witness :
  builds (Scenario.play [Scenario.resolved Scenario.plain; Scenario.denied])
    Scenario.bare "zip"
  ∧ (deploy (Scenario.play [Scenario.resolved Scenario.plain; Scenario.denied])
       Scenario.bare Scenario.freshWorld).1
    = Thrown (mkError "AccessDeniedException" "not authorized")
  ∧ fs (deploy (Scenario.play [Scenario.resolved Scenario.plain; Scenario.denied])
          Scenario.bare Scenario.freshWorld).2 !! zipPathOf Scenario.bare = None.
Proof.
  split; [reflexivity|]. split; [reflexivity|].
  exact (proj1 (proj2 (artifact_removed
                         (Scenario.play [Scenario.resolved Scenario.plain; Scenario.denied])
                         Scenario.bare Scenario.freshWorld "f" "zip"
                         eq_refl eq_refl eq_refl))).
Defined.

Lemma missing_role_rejected_witness :
  isNotFound (mkError "ResourceNotFoundException" "Function not found") = true
  ∧ truthy (roleArn Scenario.noRole) = false
  ∧ (deploy (Scenario.play [Scenario.notFound]) Scenario.noRole Scenario.freshWorld).1
    = Thrown roleArnRequired.
Proof.
  split; [reflexivity|]. split; [reflexivity|].
  exact (proj1 (missing_role_rejected (Scenario.play [Scenario.notFound])
                  Scenario.noRole Scenario.freshWorld "f" "zip"
                  (mkError "ResourceNotFoundException" "Function not found")
                  eq_refl eq_refl eq_refl eq_refl eq_refl eq_refl)).
Defined.

Lemma create_path_witness :
  truthy (roleArn Scenario.withTimeout) = true
  ∧ cf_Timeout (createParams Scenario.withTimeout "zip") = 60
  ∧ cf_MemorySize (createParams Scenario.withTimeout "zip") = 128.
Proof.
  split; [reflexivity|].
  pose proof (create_path (Scenario.play [Scenario.notFound])
                Scenario.withTimeout Scenario.freshWorld "f" "zip"
                (mkError "ResourceNotFoundException" "Function not found")
                eq_refl eq_refl eq_refl eq_refl eq_refl eq_refl)
    as (_ & _ & _ & _ & _ & _ & Hmem & _ & _ & _ & _ & _ & Htime & _).
  split; [exact (Htime 60 eq_refl eq_refl) | exact (Hmem eq_refl)].
Defined.

(** ** Defaults of the two paths *)

(** C9 does not hold on the code.  With no runtime configured the create
    path defaults to 'nodejs22.x' and the configuration-update path to
    'nodejs18.x': the two defaults differ. *)
Theorem runtime_default_drift config fname bytes :
  runtime config = None →
  cf_Runtime (createParams config bytes) = "nodejs22.x"
  ∧ uc_Runtime (configParams fname config) = "nodejs18.x"
  ∧ cf_Runtime (createParams config bytes) ≠ uc_Runtime (configParams fname config).
Proof.
  intros Hruntime. unfold createParams, configParams. simpl. rewrite Hruntime.
  split_and!; [done|done|discriminate].
Qed.

Lemma runtime_default_drift_witness :
  runtime Scenario.withTimeout = None
  ∧ cf_Runtime (createParams Scenario.withTimeout "zip")
    ≠ uc_Runtime (configParams "f" Scenario.withTimeout).
Proof.
  split; [reflexivity|].
  exact (proj2 (proj2 (runtime_default_drift Scenario.withTimeout "f" "zip" eq_refl))).
Defined.

(** ** The older code-update path *)

Lemma legacy_loop_step env n i command w :
  Legacy.updateFunctionLoop env (S n) i command w =
    match remote env (trace w) command with
    | Throws err =>
        if isConflict err && (i <? 2)
        then Legacy.updateFunctionLoop env n (i + 1) command
               (afterWait 30000 (afterSend env command w))
        else (Thrown err, afterSend env command w)
    | Settles _ r =>
        (match r with inl e => Thrown e | inr v => Returned (Some v) end,
         afterSend env command w)
    end.
Proof.
  simpl. unfold bind at 1, send. unfold afterSend.
  destruct (remote env (trace w) command) as [err|latency [e|v]]; simpl.
  - rewrite Z.add_0_r. destruct (isConflict err && (i <? 2)); [|done].
    unfold bind. by rewrite sleep_run.
  - done.
  - done.
Qed.

Lemma legacy_updateFunction_unfold env functionName zipPath w bytes :
  fs w !! zipPath = Some bytes →
  Legacy.updateFunction env functionName zipPath w
  = Legacy.updateFunctionLoop env 3 0 (UpdateFunctionCodeCommand functionName bytes) w.
Proof.
  intros Hfile. unfold Legacy.updateFunction, bind, readFileSync. by rewrite Hfile.
Qed.

(** C10.  In the older [updateFunction], when the first [send] hands back a
    promise the method ends with that promise's settlement: a rejection, a
    resource conflict included, reaches the caller after a single attempt,
    with no wait and no second attempt. *)
Theorem legacy_rejection_propagates env functionName zipPath w bytes latency r :
  fs w !! zipPath = Some bytes →
  let command := UpdateFunctionCodeCommand functionName bytes in
  remote env (trace w) command = Settles latency r →
  let run := Legacy.updateFunction env functionName zipPath w in
  run.1 = match r with inl e => Thrown e | inr v => Returned (Some v) end
  ∧ trace (run.2) = trace w ++ [EvSend command]
  ∧ clock (run.2) = clock w + Z.of_N latency.
Proof.
  intros Hfile command Hreply run. subst run.
  rewrite (legacy_updateFunction_unfold env functionName zipPath w bytes Hfile).
  fold command. rewrite legacy_loop_step, Hreply. simpl. rewrite Hreply.
  by destruct r.
Qed.

Lemma legacy_rejection_propagates_witness :
  isConflict (mkError "ResourceConflictException" "update in progress") = true
  ∧ (Legacy.updateFunction (Scenario.play [Scenario.conflict]) "f" "f.zip"
       Scenario.zipOnDisk).1
    = Thrown (mkError "ResourceConflictException" "update in progress")
  ∧ trace (Legacy.updateFunction (Scenario.play [Scenario.conflict]) "f" "f.zip"
             Scenario.zipOnDisk).2
    = [EvSend (UpdateFunctionCodeCommand "f" "zip")].
Proof.
  split; [reflexivity|].
  destruct (legacy_rejection_propagates (Scenario.play [Scenario.conflict])
              "f" "f.zip" Scenario.zipOnDisk "zip" 100%N
              (inl (mkError "ResourceConflictException" "update in progress"))
              eq_refl eq_refl) as (Hout & Htrace & _).
  split; [exact Hout | exact Htrace].
Defined.

(** ** Further properties of the retry policy *)

Lemma replyLatency_nonneg (reply : Reply) : 0 ≤ replyLatency reply.
Proof. destruct reply; simpl; lia. Qed.

(** Replaces every reply latency in the goal by a non-negative unknown. *)
Ltac latencies :=
  repeat match goal with
         | |- context [replyLatency ?r] =>
             let H := fresh "Hlat" in
             pose proof (replyLatency_nonneg r) as H;
             generalize dependent (replyLatency r); intros
         end.

(** [updateWithRetry] never falls off the end of its loop: it hands back the
    response of a successful attempt or throws the error of the last one. *)
Theorem updateWithRetry_no_fall_through env command updateType w :
  let run := updateWithRetry env command updateType w in
  (∃ v, run.1 = Returned (Some v)) ∨ (∃ e, run.1 = Thrown e).
Proof.
  intros run. subst run. rewrite updateWithRetry_unfold. cbv zeta.
  repeat first [ destruct (replyResult _) as [?|?] | destruct (isConflict _) ];
    simpl; eauto.
Qed.

(** The policy sleeps 30 s before the second attempt and 60 s before the
    third, so never more than 90 s in total, and the clock moves on by exactly
    the time slept plus the time the attempts took. *)
Theorem updateWithRetry_backoff env command updateType w :
  let run := updateWithRetry env command updateType w in
  ∃ evs, trace (run.2) = trace w ++ evs
    ∧ (waitsOf evs = [] ∨ waitsOf evs = [30000] ∨ waitsOf evs = [30000; 60000])
    ∧ length (waitsOf evs) = (length (sendsOf evs) - 1)%nat
    ∧ clock w + foldr Z.add 0 (waitsOf evs) ≤ clock (run.2).
Proof.
  intros run. subst run. rewrite updateWithRetry_unfold. cbv zeta.
  destruct (replyResult (remote env (trace w) command)) as [e1|v1].
  2: { exists [EvSend command]. split_and!; eauto. simpl. latencies. lia. }
  destruct (isConflict e1).
  2: { exists [EvSend command]. split_and!; eauto. simpl. latencies. lia. }
  destruct (replyResult (remote env (trace (afterWait _ (afterSend env command w)))
                           command)) as [e2|v2].
  2: { exists [EvSend command; EvWait 30000; EvSend command]. simpl.
       rewrite <- !app_assoc. split_and!; eauto.
       simpl. unfold waitTime. latencies. lia. }
  destruct (isConflict e2).
  2: { exists [EvSend command; EvWait 30000; EvSend command]. simpl.
       rewrite <- !app_assoc. split_and!; eauto.
       simpl. unfold waitTime. latencies. lia. }
  exists [EvSend command; EvWait 30000; EvSend command; EvWait 60000; EvSend command].
  destruct (replyResult _) as [e3|v3];
    simpl; rewrite <- !app_assoc; (split_and!; eauto);
    simpl; unfold waitTime; latencies; lia.
Qed.

(** ** Further properties of the readiness poller *)

(** Each further poll starts at least 3000 ms after the previous one, so a
    wait of [maxWaitMs] makes at most [maxWaitMs / 3000 + 1] polls, none at
    all when [maxWaitMs] is not positive; and it gives up with the timeout
    error only once [maxWaitMs] have passed. *)
Lemma pollLoop_bound env functionName startTime maxWaitMs fuel w :
  let run := pollLoop env fuel functionName startTime maxWaitMs w in
  ∃ evs, trace (run.2) = trace w ++ evs
    ∧ clock w ≤ clock (run.2)
    ∧ (maxWaitMs ≤ clock w - startTime → evs = [])
    ∧ (clock w - startTime < maxWaitMs →
       3000 * Z.of_nat (length (sendsOf evs)) ≤ maxWaitMs - (clock w - startTime) + 2999)
    ∧ (run.1 = Thrown readinessTimeout → maxWaitMs ≤ clock (run.2) - startTime).
Proof.
  intros run. subst run. revert w. induction fuel as [|fuel IH]; intros w.
  - exists []. simpl. rewrite app_nil_r. split_and!; try done; try lia.
  - rewrite pollLoop_step.
    destruct (clock w - startTime <? maxWaitMs) eqn:Hguard.
    2: { apply Z.ltb_ge in Hguard. exists []. simpl. rewrite app_nil_r.
         split_and!; try done; lia. }
    apply Z.ltb_lt in Hguard. rewrite pollOnce_run.
    set (get := GetFunctionCommand functionName).
    pose proof (afterSend_clock env get w) as Hclock.
    destruct (IH (afterWait 3000 (afterSend env get w)))
      as (evs & Ht & Hc & Hnone & Hcount & Hto).
    assert (Hstop : ∀ out : Outcome unit,
      out ≠ Thrown readinessTimeout →
      ∃ evs0, trace (out, afterSend env get w).2 = trace w ++ evs0
        ∧ clock w ≤ clock (out, afterSend env get w).2
        ∧ (maxWaitMs ≤ clock w - startTime → evs0 = [])
        ∧ (clock w - startTime < maxWaitMs →
           3000 * Z.of_nat (length (sendsOf evs0))
           ≤ maxWaitMs - (clock w - startTime) + 2999)
        ∧ ((out, afterSend env get w).1 = Thrown readinessTimeout →
           maxWaitMs ≤ clock (out, afterSend env get w).2 - startTime)).
    { intros out Hout. exists [EvSend get].
      split_and!; try done; simpl; lia. }
    assert (Hagain :
      ∃ evs1,
        trace (pollLoop env fuel functionName startTime maxWaitMs
                 (afterWait 3000 (afterSend env get w))).2 = trace w ++ evs1
        ∧ clock w ≤ clock (pollLoop env fuel functionName startTime maxWaitMs
                             (afterWait 3000 (afterSend env get w))).2
        ∧ (maxWaitMs ≤ clock w - startTime → evs1 = [])
        ∧ (clock w - startTime < maxWaitMs →
           3000 * Z.of_nat (length (sendsOf evs1))
           ≤ maxWaitMs - (clock w - startTime) + 2999)
        ∧ ((pollLoop env fuel functionName startTime maxWaitMs
              (afterWait 3000 (afterSend env get w))).1 = Thrown readinessTimeout →
           maxWaitMs ≤ clock (pollLoop env fuel functionName startTime maxWaitMs
                                (afterWait 3000 (afterSend env get w))).2 - startTime)).
    { exists ([EvSend get; EvWait 3000] ++ evs). rewrite Ht. simpl.
      rewrite <- !app_assoc. simpl in Hc, Hnone, Hcount, Hclock.
      split_and!; try done; try lia.
      intros _.
      destruct (Z.lt_ge_cases
                  (clock w + replyLatency (remote env (trace w) get) + 3000 - startTime)
                  maxWaitMs) as [Hlt|Hge].
      - specialize (Hcount Hlt). lia.
      - rewrite (Hnone ltac:(lia)). simpl. lia. }
    destruct (replyResult (remote env (trace w) get)) as [err|result].
    + destruct (bool_decide (message err = "Previous update failed")) eqn:Hmsg;
        [|done].
      apply Hstop. apply bool_decide_eq_true in Hmsg.
      intros Heq. by simplify_eq.
    + destruct (_ && _); [by apply Hstop|].
      destruct (bool_decide _); [by apply Hstop | done].
Qed.

(** The readiness wait makes no poll when [maxWaitMs] is not positive, its
    last poll starts before [maxWaitMs] have passed (at most 40 polls for the
    120 s the deployer asks for), and it reports a timeout only once
    [maxWaitMs] have passed. *)
Theorem waitForFunctionReady_poll_bound env functionName maxWaitMs w :
  let run := waitForFunctionReady env functionName maxWaitMs w in
  ∃ evs, trace (run.2) = trace w ++ evs
    ∧ (maxWaitMs ≤ 0 → evs = [] ∧ run.1 = Thrown readinessTimeout)
    ∧ (0 < maxWaitMs → 3000 * (Z.of_nat (length (sendsOf evs)) - 1) < maxWaitMs)
    ∧ (maxWaitMs = 120000 → (length (sendsOf evs) ≤ 40)%nat)
    ∧ (run.1 = Thrown readinessTimeout → maxWaitMs ≤ clock (run.2) - clock w).
Proof.
  intros run. subst run. rewrite waitForFunctionReady_unfold.
  destruct (pollLoop_bound env functionName (clock w) maxWaitMs (pollFuel maxWaitMs) w)
    as (evs & Ht & _ & Hnone & Hcount & Hto).
  exists evs. split; [done|]. split_and!.
  - intros Hneg. split; [apply Hnone; lia|].
    unfold pollFuel. replace (Z.to_nat (maxWaitMs / 3000) + 2)%nat
      with (S (Z.to_nat (maxWaitMs / 3000) + 1)) by lia.
    rewrite pollLoop_step.
    destruct (clock w - clock w <? maxWaitMs) eqn:Hguard; [|done].
    apply Z.ltb_lt in Hguard. lia.
  - intros Hpos. specialize (Hcount ltac:(lia)). lia.
  - intros ->. specialize (Hcount ltac:(lia)). lia.
  - done.
Qed.

Lemma pollLoop_outcomes env functionName startTime maxWaitMs fuel w :
  let run := pollLoop env fuel functionName startTime maxWaitMs w in
  run.1 = Returned tt
  ∨ (∃ e, run.1 = Thrown e ∧ message e = "Previous update failed")
  ∨ run.1 = Thrown readinessTimeout
  ∨ run.1 = OutOfFuel.
Proof.
  intros run. subst run. revert w. induction fuel as [|fuel IH]; intros w.
  - simpl. auto.
  - rewrite pollLoop_step. destruct (_ <? _); [|simpl; auto].
    rewrite pollOnce_run.
    destruct (replyResult _) as [err|result].
    + destruct (bool_decide (message err = _)) eqn:Hmsg; [|apply IH].
      apply bool_decide_eq_true in Hmsg. simpl. eauto.
    + destruct (_ && _); [simpl; auto|].
      destruct (bool_decide _); [|apply IH]. simpl. right. left.
      by exists previousUpdateFailed.
Qed.

(** Whatever the remote answers, the readiness wait ends in one of three
    ways: it returns, it throws an error whose message is 'Previous update
    failed', or it throws the timeout error.  No error of a poll gets out. *)
Theorem waitForFunctionReady_outcomes env functionName maxWaitMs w :
  let run := waitForFunctionReady env functionName maxWaitMs w in
  run.1 = Returned tt
  ∨ (∃ e, run.1 = Thrown e ∧ message e = "Previous update failed")
  ∨ run.1 = Thrown readinessTimeout.
Proof.
  intros run.
  pose proof (waitForFunctionReady_terminates env functionName maxWaitMs w) as Hterm.
  destruct (pollLoop_outcomes env functionName (clock w) maxWaitMs (pollFuel maxWaitMs) w)
    as [?|[?|[?|Hfuel]]]; auto.
  by destruct Hterm.
Qed.

(** A poll whose query fails with any other error is followed by the 3000 ms
    sleep, not by that error. *)
Lemma poll_error_swallowed env functionName startTime maxWaitMs fuel w err :
  clock w - startTime < maxWaitMs →
  replyResult (remote env (trace w) (GetFunctionCommand functionName)) = inl err →
  message err ≠ "Previous update failed" →
  pollLoop env (S fuel) functionName startTime maxWaitMs w
  = pollLoop env fuel functionName startTime maxWaitMs
      (afterWait 3000 (afterSend env (GetFunctionCommand functionName) w)).
Proof.
  intros Hguard Hreply Hmsg. rewrite pollLoop_step.
  apply Z.ltb_lt in Hguard. rewrite Hguard, pollOnce_run, Hreply.
  by rewrite bool_decide_eq_false_2.
Qed.

(** ** Further properties of a deployment run *)

(** Without a function name nothing happens at all: no archive, no remote
    call; the command line reports the error and exits with 1. *)
Theorem deploy_without_functionName env config w :
  truthy (functionName config) = false →
  deploy env config w = (Thrown functionNameRequired, w)
  ∧ trace (cli env config w).2
    = trace w ++ [EvReport "functionName is required in configuration"; EvExit 1]
  ∧ fs (cli env config w).2 = fs w.
Proof.
  intros Hname. unfold cli, try_catch, deploy. rewrite Hname. simpl.
  split_and!; try done. by rewrite <- app_assoc.
Qed.

Lemma deploy_without_functionName_witness :
  truthy (functionName
            (mkConfig (Some EmptyString) None (Some "role") None None None
                      None None None None None None None None)) = false
  ∧ (deploy (Scenario.play [])
       (mkConfig (Some EmptyString) None (Some "role") None None None
                 None None None None None None None None)
       Scenario.freshWorld).1 = Thrown functionNameRequired.
Proof.
  split; [reflexivity|].
  exact (f_equal fst
           (proj1 (deploy_without_functionName (Scenario.play [])
                     (mkConfig (Some EmptyString) None (Some "role") None None None
                               None None None None None None None None)
                     Scenario.freshWorld eq_refl))).
Defined.

(** When the archive cannot be built, the run fails with the builder's error
    before any remote call, and the [finally] block does not apply: whatever
    the builder left at the archive path stays there. *)
Theorem deploy_build_failure env config w fname e leftover :
  functionName config = Some fname → truthy fname = true →
  builder env (js_default (sourceDir config) ".") (zipPathOf config)
    (js_default (includes config) ["lambda.js"]) = BuildFailed e leftover →
  let run := deploy env config w in
  run.1 = Thrown e
  ∧ trace (run.2) = trace w
  ∧ (∀ bytes, leftover = Some bytes → fs (run.2) !! zipPathOf config = Some bytes)
  ∧ (leftover = None → fs (run.2) = fs w).
Proof.
  intros Hname Htruthy Hbuild run. subst run.
  assert (Hrun :
    deploy env config w
    = (Thrown e,
       mkWorld (clock w)
         (match leftover with
          | Some partial => <[zipPathOf config := partial]> (fs w)
          | None => fs w
          end) (trace w))).
  { unfold deploy, zipPathOf in *. rewrite Hname in *.
    unfold truthy at 1, truthy_option. rewrite Htruthy.
    change (js_default (Some fname) EmptyString) with fname in *.
    change (negb true) with false. cbv iota.
    unfold bind at 1, createZip. by rewrite Hbuild. }
  rewrite Hrun. simpl. split_and!; try done.
  - intros bytes ->. apply lookup_insert_eq.
  - by intros ->.
Qed.

Lemma deploy_build_failure_witness :
  let env := mkEnv (Scenario.scripted [] (Scenario.resolved Scenario.plain))
               (λ _ _ _, BuildFailed (newError "archiver failed") (Some "partial")) in
  (deploy env Scenario.bare Scenario.freshWorld).1 = Thrown (newError "archiver failed")
  ∧ fs (deploy env Scenario.bare Scenario.freshWorld).2 !! "f.zip" = Some "partial".
Proof.
  destruct (deploy_build_failure
              (mkEnv (Scenario.scripted [] (Scenario.resolved Scenario.plain))
                 (λ _ _ _, BuildFailed (newError "archiver failed") (Some "partial")))
              Scenario.bare Scenario.freshWorld "f" (newError "archiver failed")
              (Some "partial") eq_refl eq_refl eq_refl)
    as (Hout & _ & Hleft & _).
  split; [exact Hout | exact (Hleft "partial" eq_refl)].
Defined.

(** An existence query that fails with anything but
    ResourceNotFoundException ends the run with that error: the query is the
    only remote call, and the archive is removed. *)
Theorem deploy_existence_query_error env config w fname bytes e :
  functionName config = Some fname → truthy fname = true →
  builds env config bytes →
  let zipPath := zipPathOf config in
  let get := GetFunctionCommand fname in
  replyResult (remote env (trace w ++ [EvZip zipPath]) get) = inl e →
  isNotFound e = false →
  let run := deploy env config w in
  run.1 = Thrown e
  ∧ trace (run.2) = trace w ++ [EvZip zipPath; EvSend get; EvUnlink zipPath]
  ∧ fs (run.2) !! zipPath = None.
Proof.
  intros Hname Htruthy Hbuild zipPath get Hreply Hnf run. subst run.
  rewrite (deploy_unfold env config w fname bytes) by done. fold zipPath.
  destruct (reconcile_then_cleanup env fname zipPath bytes config w)
    as (Hout & _ & _ & Hfs & Ht & _).
  assert (Hbody : reconcile env fname zipPath config (afterZip zipPath bytes w)
                  = (Thrown e, afterSend env get (afterZip zipPath bytes w))).
  { unfold reconcile, bind. rewrite functionExists_run. fold get.
    simpl trace. by rewrite Hreply, Hnf. }
  rewrite Hbody in Hout, Ht. simpl in Hout, Ht.
  split_and!.
  - done.
  - rewrite Ht. by rewrite <- !app_assoc.
  - rewrite Hfs. apply lookup_delete_eq.
Qed.

Lemma deploy_existence_query_error_witness :
  isNotFound (mkError "AccessDeniedException" "not authorized") = false
  ∧ (deploy (Scenario.play [Scenario.denied]) Scenario.bare Scenario.freshWorld).1
    = Thrown (mkError "AccessDeniedException" "not authorized").
Proof.
  split; [reflexivity|].
  exact (proj1 (deploy_existence_query_error (Scenario.play [Scenario.denied])
                  Scenario.bare Scenario.freshWorld "f" "zip"
                  (mkError "AccessDeniedException" "not authorized")
                  eq_refl eq_refl eq_refl eq_refl eq_refl)).
Defined.



(** ** The older deployment path *)

Lemma waitsOf_app (a b : list Event) : waitsOf (a ++ b) = waitsOf a ++ waitsOf b.
Proof. unfold waitsOf. apply omap_app. Qed.

(** In the older [updateFunction] a further attempt is made only after
    [send] threw synchronously with a conflict, always after the same 30 s;
    there are at most three attempts and the loop never falls through. *)
Theorem legacy_updateFunction_retry env functionName zipPath w bytes :
  fs w !! zipPath = Some bytes →
  let command := UpdateFunctionCodeCommand functionName bytes in
  let run := Legacy.updateFunction env functionName zipPath w in
  ∃ evs, trace (run.2) = trace w ++ evs
    ∧ (1 ≤ length (sendsOf evs) ≤ 3)%nat
    ∧ Forall (eq command) (sendsOf evs)
    ∧ Forall (eq 30000) (waitsOf evs)
    ∧ length (waitsOf evs) = (length (sendsOf evs) - 1)%nat
    ∧ run.1 ≠ Returned None ∧ run.1 ≠ OutOfFuel
    ∧ ((1 < length (sendsOf evs))%nat →
       ∃ e, remote env (trace w) command = Throws e ∧ isConflict e = true).
Proof.
  intros Hfile command run. subst run.
  rewrite (legacy_updateFunction_unfold env functionName zipPath w bytes Hfile).
  fold command. rewrite legacy_loop_step.
  destruct (remote env (trace w) command) as [e1|lat1 r1] eqn:R1.
  2: { exists [EvSend command]. simpl.
       split_and!; try done; try lia; try (by repeat constructor);
         destruct r1; done. }
  change (0 <? 2) with true. rewrite andb_true_r.
  destruct (isConflict e1) eqn:C1.
  2: { exists [EvSend command]. simpl.
       split_and!; try done; try lia; by repeat constructor. }
  rewrite legacy_loop_step.
  set (w1 := afterWait 30000 (afterSend env command w)).
  destruct (remote env (trace w1) command) as [e2|lat2 r2].
  2: { exists [EvSend command; EvWait 30000; EvSend command]. simpl.
       rewrite <- !app_assoc.
       split_and!; try done; try lia; try (by repeat constructor); eauto;
         destruct r2; done. }
  change (0 + 1 <? 2) with true. rewrite andb_true_r.
  destruct (isConflict e2).
  2: { exists [EvSend command; EvWait 30000; EvSend command]. simpl.
       rewrite <- !app_assoc.
       split_and!; try done; try lia; try (by repeat constructor); eauto. }
  rewrite legacy_loop_step.
  set (w2 := afterWait 30000 (afterSend env command w1)).
  exists [EvSend command; EvWait 30000; EvSend command; EvWait 30000; EvSend command].
  destruct (remote env (trace w2) command) as [e3|lat3 r3].
  - change (0 + 1 + 1 <? 2) with false. rewrite andb_false_r. simpl.
    rewrite <- !app_assoc.
    split_and!; try done; try lia; try (by repeat constructor); eauto.
  - simpl. rewrite <- !app_assoc.
    split_and!; try done; try lia; try (by repeat constructor); eauto;
      destruct r3; done.
Qed.

Lemma legacy_updateFunction_retry_witness :
  let env := mkEnv (Scenario.scripted
                      [Throws (mkError "ResourceConflictException" "busy")]
                      (Scenario.resolved Scenario.plain))
               Scenario.alwaysBuilt in
  fs Scenario.zipOnDisk !! "f.zip" = Some "zip"
  ∧ trace (Legacy.updateFunction env "f" "f.zip" Scenario.zipOnDisk).2
    = [EvSend (UpdateFunctionCodeCommand "f" "zip"); EvWait 30000;
       EvSend (UpdateFunctionCodeCommand "f" "zip")]
  ∧ ∃ evs, trace (Legacy.updateFunction env "f" "f.zip" Scenario.zipOnDisk).2
           = trace Scenario.zipOnDisk ++ evs
           ∧ Forall (eq 30000) (waitsOf evs).
Proof.
  split; [reflexivity|]. split; [reflexivity|].
  destruct (legacy_updateFunction_retry
              (mkEnv (Scenario.scripted
                        [Throws (mkError "ResourceConflictException" "busy")]
                        (Scenario.resolved Scenario.plain))
                 Scenario.alwaysBuilt)
              "f" "f.zip" Scenario.zipOnDisk "zip" eq_refl)
    as (evs & Htrace & _ & _ & Hwaits & _).
  exists evs. split; [exact Htrace | exact Hwaits].
Defined.

Lemma Framed_send env P command : P command → Framed P (send env command).
Proof.
  intros HP w. split; [done|]. exists [EvSend command].
  split; [done|]. by repeat constructor.
Qed.

Lemma Framed_settle P reply : Framed P (settle reply).
Proof.
  intros w. destruct reply as [e|latency [e|v]]; simpl;
    (split; [done|]); exists []; by rewrite app_nil_r.
Qed.

Lemma Terminates_send env command : Terminates (send env command).
Proof. by intros w. Qed.

Lemma Terminates_settle reply : Terminates (settle reply).
Proof. intros w. by destruct reply as [e|latency [e|v]]. Qed.

Lemma Framed_legacy_updateFunctionLoop env P remaining i command :
  P command → Framed P (Legacy.updateFunctionLoop env remaining i command).
Proof.
  intros HP. revert i. induction remaining as [|n IH]; intros i; simpl.
  - apply Framed_ret.
  - apply Framed_bind; [by apply Framed_send|]. intros [err|latency r].
    + apply Framed_if; eauto with frames.
    + apply Framed_bind; [apply Framed_settle | eauto with frames].
Qed.

Lemma Framed_legacy_updateFunctionConfigLoop env P remaining i command :
  P command → Framed P (Legacy.updateFunctionConfigLoop env remaining i command).
Proof.
  intros HP. revert i. induction remaining as [|n IH]; intros i; simpl.
  - apply Framed_ret.
  - apply Framed_bind; [by apply Framed_send|]. intros [err|latency r].
    + apply Framed_if; eauto with frames.
    + apply Framed_bind; [apply Framed_settle | eauto with frames].
Qed.

Lemma Terminates_legacy_updateFunctionLoop env remaining i command :
  Terminates (Legacy.updateFunctionLoop env remaining i command).
Proof.
  revert i. induction remaining as [|n IH]; intros i; simpl.
  - apply Terminates_ret.
  - apply Terminates_bind; [apply Terminates_send|]. intros [err|latency r].
    + apply Terminates_if; eauto with frames.
    + apply Terminates_bind; [apply Terminates_settle | eauto with frames].
Qed.

Lemma Terminates_legacy_updateFunctionConfigLoop env remaining i command :
  Terminates (Legacy.updateFunctionConfigLoop env remaining i command).
Proof.
  revert i. induction remaining as [|n IH]; intros i; simpl.
  - apply Terminates_ret.
  - apply Terminates_bind; [apply Terminates_send|]. intros [err|latency r].
    + apply Terminates_if; eauto with frames.
    + apply Terminates_bind; [apply Terminates_settle | eauto with frames].
Qed.

Lemma legacy_reconcile_run env fname zipPath config w :
  Legacy.reconcile env fname zipPath config w =
    match replyResult (remote env (trace w) (GetFunctionCommand fname)) with
    | inr _ => legacyAfterQuery env fname zipPath config true
                 (afterSend env (GetFunctionCommand fname) w)
    | inl e =>
        if isNotFound e
        then legacyAfterQuery env fname zipPath config false
               (afterSend env (GetFunctionCommand fname) w)
        else (Thrown e, afterSend env (GetFunctionCommand fname) w)
    end.
Proof.
  unfold Legacy.reconcile. unfold bind at 1. rewrite functionExists_run.
  destruct (replyResult _) as [e|v]; [|done]. by destruct (isNotFound e).
Qed.

Lemma Framed_legacy_after_query env fname zipPath config (exists_ : bool) :
  Framed (isLegacyStep config) (legacyAfterQuery env fname zipPath config exists_).
Proof.
  unfold legacyAfterQuery.
  assert (Hsync : Framed (isLegacyStep config) (syncTriggers env fname config)).
  { eapply Framed_weaken; [|apply Framed_syncTriggers].
    intros [] Hc; simpl in Hc; try done; by split. }
  destruct exists_.
  - apply Framed_bind.
    { unfold Legacy.updateFunction. apply Framed_bind; [eauto with frames|].
      intros zipBuffer. apply Framed_legacy_updateFunctionLoop. by split. }
    intros _. apply Framed_bind; [|done].
    destruct (Legacy.configTouched config) eqn:Htouched; [|eauto with frames].
    apply Framed_bind; [|eauto with frames].
    apply Framed_legacy_updateFunctionConfigLoop. by split.
  - apply Framed_if; [eauto with frames|].
    apply Framed_bind; [|done].
    unfold Legacy.createFunction. apply Framed_bind; [eauto with frames|].
    intros zipBuffer. apply Framed_awaitSend. by split.
Qed.

Lemma Terminates_legacy_reconcile env fname zipPath config :
  Terminates (Legacy.reconcile env fname zipPath config).
Proof.
  unfold Legacy.reconcile. apply Terminates_bind; [eauto with frames|].
  intros []; [|unfold Legacy.createFunction; eauto 10 with frames].
  apply Terminates_bind.
  { unfold Legacy.updateFunction. apply Terminates_bind; [eauto with frames|].
    intros zipBuffer. apply Terminates_legacy_updateFunctionLoop. }
  intros _. apply Terminates_bind; [|eauto with frames].
  apply Terminates_if; [|eauto with frames].
  apply Terminates_bind; [|eauto with frames].
  apply Terminates_legacy_updateFunctionConfigLoop.
Qed.

(** The older [deploy] asks for the function once, to see whether it exists,
    and never again: between the code update and the configuration update
    there is no readiness poll.  It sends a configuration update only when
    layers, environment, timeout or memorySize is truthy, so a description
    alone is never pushed.  The archive is removed in the end. *)
Theorem legacy_deploy_never_polls env config w fname bytes :
  functionName config = Some fname → truthy fname = true →
  builds env config bytes →
  let zipPath := zipPathOf config in
  let run := Legacy.deploy env config w in
  run.1 ≠ OutOfFuel
  ∧ fs (run.2) !! zipPath = None
  ∧ ∃ evs,
      trace (run.2)
      = trace w ++ [EvZip zipPath; EvSend (GetFunctionCommand fname)]
          ++ evs ++ [EvUnlink zipPath]
      ∧ Forall (remoteEvent (isLegacyStep config)) evs.
Proof.
  intros Hname Htruthy Hbuild zipPath run. subst run.
  assert (Hrun :
    Legacy.deploy env config w
    = try_finally (Legacy.reconcile env fname zipPath config) (cleanup zipPath)
        (afterZip zipPath bytes w)).
  { unfold Legacy.deploy, builds, zipPath, zipPathOf in *. rewrite Hname in *.
    unfold truthy at 1, truthy_option. rewrite Htruthy.
    change (js_default (Some fname) EmptyString) with fname in *.
    change (negb true) with false. cbv iota.
    unfold bind at 1, createZip. by rewrite Hbuild. }
  rewrite Hrun. unfold try_finally.
  pose proof (Terminates_legacy_reconcile env fname zipPath config
                (afterZip zipPath bytes w)) as Hterm.
  set (get := GetFunctionCommand fname).
  set (w1 := afterSend env get (afterZip zipPath bytes w)).
  assert (Hbody : ∃ evs,
    fs (Legacy.reconcile env fname zipPath config (afterZip zipPath bytes w)).2
      = <[zipPath := bytes]> (fs w)
    ∧ trace (Legacy.reconcile env fname zipPath config (afterZip zipPath bytes w)).2
      = trace w ++ [EvZip zipPath; EvSend get] ++ evs
    ∧ Forall (remoteEvent (isLegacyStep config)) evs).
  { rewrite legacy_reconcile_run. fold get w1.
    destruct (replyResult (remote env _ get)) as [e|v].
    - destruct (isNotFound e).
      + destruct (Framed_legacy_after_query env fname zipPath config false w1)
          as (Hfs & evs & Ht & Hall).
        exists evs. rewrite Hfs, Ht. simpl. by rewrite <- !app_assoc.
      + exists []. simpl. by rewrite <- !app_assoc.
    - destruct (Framed_legacy_after_query env fname zipPath config true w1)
        as (Hfs & evs & Ht & Hall).
      exists evs. rewrite Hfs, Ht. simpl. by rewrite <- !app_assoc. }
  destruct Hbody as (evs & Hfs & Ht & Hall).
  destruct (Legacy.reconcile env fname zipPath config (afterZip zipPath bytes w))
    as [out w2]; simpl in *.
  assert (Hfile : fs w2 !! zipPath = Some bytes).
  { rewrite Hfs. apply lookup_insert_eq. }
  rewrite cleanup_run, Hfile.
  destruct out as [[]|e|]; [| |done]; simpl;
    (split_and!; [done| by apply lookup_delete_eq |]);
    exists evs; rewrite Ht, <- !app_assoc; done.
Qed.

Lemma legacy_deploy_never_polls_witness :
  let env := Scenario.play [] in
  builds env Scenario.withDescription "zip"
  ∧ sendsOf (trace (Legacy.deploy env Scenario.withDescription Scenario.freshWorld).2)
    = [GetFunctionCommand "f"; UpdateFunctionCodeCommand "f" "zip"]
  ∧ fs (Legacy.deploy env Scenario.withDescription Scenario.freshWorld).2
      !! zipPathOf Scenario.withDescription = None.
Proof.
  split; [reflexivity|]. split; [reflexivity|].
  exact (proj1 (proj2 (legacy_deploy_never_polls (Scenario.play [])
                         Scenario.withDescription Scenario.freshWorld "f" "zip"
                         eq_refl eq_refl eq_refl))).
Defined.

(** ** Further properties of the update step *)

(** Runtime and handler do not count as configuration: when layers,
    environment, timeout, memorySize and description are all absent or falsy,
    the update step sends the code update and nothing else, whatever runtime
    and handler the configuration asks for. *)
Theorem runtime_and_handler_never_pushed env functionName zipPath config w bytes :
  fs w !! zipPath = Some bytes →
  layers config = None → environment config = None →
  truthy (timeout config) = false → truthy (memorySize config) = false →
  truthy (description config) = false →
  let run := updateFunctionSequential env functionName zipPath config w in
  ∃ (k : nat) evs,
    trace (run.2) = trace w ++ evs
    ∧ sendsOf evs = replicate k (UpdateFunctionCodeCommand functionName bytes)
    ∧ (1 ≤ k ≤ 3)%nat.
Proof.
  intros Hfile Hl He Ht Hm Hd run. subst run.
  rewrite (updateFunctionSequential_unfold _ _ _ _ _ bytes Hfile).
  assert (Htouched : configTouched config = false).
  { unfold configTouched. by rewrite Hl, He, Ht, Hm, Hd. }
  rewrite Htouched.
  destruct (updateWithRetry_trace env (UpdateFunctionCodeCommand functionName bytes)
              "code" w) as (k & evs & Htr & Hs & Hk & _).
  exists k, evs.
  by destruct (updateWithRetry env _ "code" w) as [[r|e|] w1].
Qed.

Lemma runtime_and_handler_never_pushed_witness :
  runtime Scenario.withRuntime = Some "nodejs20.x"
  ∧ ∃ (k : nat) evs,
      trace (updateFunctionSequential (Scenario.play []) "f" "f.zip"
               Scenario.withRuntime Scenario.zipOnDisk).2
      = trace Scenario.zipOnDisk ++ evs
      ∧ sendsOf evs = replicate k (UpdateFunctionCodeCommand "f" "zip").
Proof.
  split; [reflexivity|].
  destruct (runtime_and_handler_never_pushed (Scenario.play []) "f" "f.zip"
              Scenario.withRuntime Scenario.zipOnDisk "zip"
              eq_refl eq_refl eq_refl eq_refl eq_refl eq_refl)
    as (k & evs & Htrace & Hsends & _).
  exists k, evs. split; [exact Htrace | exact Hsends].
Defined.

(** ** Further properties of trigger synchronisation *)

(** Whatever happens during a pass, every call after the listing is one the
    configuration and the listing call for: an update of a mapping bound to a
    configured queue, a create for a configured queue without mapping, or a
    delete of a mapping bound to no configured queue. *)
Theorem sync_calls_are_planned env functionName triggers w existing :
  triggers ≠ [] →
  let list := ListEventSourceMappingsCommand functionName in
  replyResult (remote env (trace w) list) = inr existing →
  let remoteMappings := EventSourceMappings existing <||> [] in
  let run := updateEventSourceMappings env functionName (Some triggers) w in
  ∃ evs, trace (run.2) = trace w ++ EvSend list :: evs
    ∧ ∀ c, c ∈ sendsOf evs →
        (∃ t m, t ∈ triggers ∧ m ∈ remoteMappings
                ∧ EventSourceArn m = Some (queueArn t)
                ∧ c = UpdateEventSourceMappingCommand (UUID m) (settingsOf t))
        ∨ (∃ t, t ∈ triggers
                ∧ (∀ m, m ∈ remoteMappings → EventSourceArn m ≠ Some (queueArn t))
                ∧ c = CreateEventSourceMappingCommand (queueArn t) functionName
                        (settingsOf t))
        ∨ (∃ m, m ∈ remoteMappings
                ∧ (∀ t, t ∈ triggers → EventSourceArn m ≠ Some (queueArn t))
                ∧ c = DeleteEventSourceMappingCommand (UUID m)).
Proof.
  intros Hne list Hreply remoteMappings run. subst run.
  rewrite updateEventSourceMappings_unfold by done. fold list. rewrite Hreply.
  fold remoteMappings.
  destruct (sendAll_run env
              ((syncCommand functionName existing <$> triggers)
               ++ omap (removeCommand (map queueArn triggers)) remoteMappings)
              (afterSend env list w)) as (evs & Ht & [rest Hp] & _).
  exists evs. split.
  { rewrite Ht. simpl. by rewrite <- app_assoc. }
  intros c Hc.
  assert (Hin : c ∈ (syncCommand functionName existing <$> triggers)
                    ++ omap (removeCommand (map queueArn triggers)) remoteMappings).
  { rewrite Hp. apply elem_of_app. by left. }
  apply elem_of_app in Hin as [Hin|Hin].
  - apply list_elem_of_fmap in Hin as (t & -> & Ht').
    unfold syncCommand. destruct (findMapping existing t) as [m|] eqn:Hfind.
    + left. exists t, m. apply findMapping_Some in Hfind as [? ?]. done.
    + right. left. exists t. split; [done|]. split; [|done].
      by apply findMapping_None.
  - right. right. rewrite omap_removeCommand in Hin.
    apply list_elem_of_fmap in Hin as (m & -> & Hm).
    apply list_elem_of_filter in Hm as [Hnot Hm].
    exists m. split; [done|]. split; [|done]. by apply arnIncluded_false.
Qed.

Lemma sync_calls_are_planned_witness :
  let env := Scenario.play
               [Scenario.resolved (Scenario.mappings [Scenario.mappingA; Scenario.mappingC]);
                Scenario.denied] in
  [Scenario.queueA; Scenario.queueB] ≠ []
  ∧ ∃ evs, trace (updateEventSourceMappings env "f"
                    (Some [Scenario.queueA; Scenario.queueB]) Scenario.freshWorld).2
           = trace Scenario.freshWorld ++ EvSend (ListEventSourceMappingsCommand "f") :: evs.
Proof.
  split; [discriminate|].
  destruct (sync_calls_are_planned
              (Scenario.play
                 [Scenario.resolved (Scenario.mappings [Scenario.mappingA; Scenario.mappingC]);
                  Scenario.denied])
              "f" [Scenario.queueA; Scenario.queueB] Scenario.freshWorld
              (Scenario.mappings [Scenario.mappingA; Scenario.mappingC])
              ltac:(discriminate) eq_refl) as (evs & Htrace & _).
  exists evs. exact Htrace.
Defined.

(** A listing without [EventSourceMappings] counts as no mappings: a pass
    that completes has created every configured trigger, in order, and has
    updated or deleted nothing. *)
Theorem sync_without_listed_mappings env functionName triggers w existing :
  triggers ≠ [] →
  let list := ListEventSourceMappingsCommand functionName in
  replyResult (remote env (trace w) list) = inr existing →
  EventSourceMappings existing = None →
  let run := updateEventSourceMappings env functionName (Some triggers) w in
  run.1 = Returned tt →
  ∃ evs, trace (run.2) = trace w ++ evs
    ∧ sendsOf evs
      = list :: ((λ t, CreateEventSourceMappingCommand (queueArn t) functionName
                         (settingsOf t)) <$> triggers).
Proof.
  intros Hne list Hreply Hnone run. subst run.
  rewrite updateEventSourceMappings_unfold by done. fold list.
  rewrite Hreply, Hnone. simpl. rewrite app_nil_r.
  assert (Hplan : syncCommand functionName existing <$> triggers
                  = (λ t, CreateEventSourceMappingCommand (queueArn t) functionName
                            (settingsOf t)) <$> triggers).
  { apply list_fmap_ext. intros i t _. unfold syncCommand, findMapping.
    by rewrite Hnone. }
  rewrite Hplan.
  destruct (sendAll_run env
              ((λ t, CreateEventSourceMappingCommand (queueArn t) functionName
                       (settingsOf t)) <$> triggers)
              (afterSend env list w)) as (evs & Ht & _ & Hr & _).
  intros Hret. exists (EvSend list :: evs). split.
  - rewrite Ht. simpl. by rewrite <- app_assoc.
  - simpl. by rewrite (Hr Hret).
Qed.

Lemma sync_without_listed_mappings_witness :
  let env := Scenario.play [] in
  EventSourceMappings Scenario.plain = None
  ∧ ∃ evs, trace (updateEventSourceMappings env "f" (Some [Scenario.queueB])
                    Scenario.freshWorld).2 = trace Scenario.freshWorld ++ evs
           ∧ sendsOf evs
             = [ListEventSourceMappingsCommand "f";
                CreateEventSourceMappingCommand "arn:B" "f" (mkSettings 5 2 false)].
Proof.
  split; [reflexivity|].
  exact (sync_without_listed_mappings (Scenario.play []) "f" [Scenario.queueB]
           Scenario.freshWorld Scenario.plain
           ltac:(discriminate) eq_refl eq_refl eq_refl).
Defined.

(** The settings sent for a trigger: a batch size or window that is absent or
    0 gets the default (10, 0), any other value is sent as it is, and the
    mapping is disabled exactly when [enabled] is [false]. *)
Theorem settingsOf_defaults (trigger : TriggerSpec) :
  (truthy (batchSize trigger) = false → BatchSize (settingsOf trigger) = 10)
  ∧ (∀ n, batchSize trigger = Some n → n ≠ 0 → BatchSize (settingsOf trigger) = n)
  ∧ (truthy (maxBatchingWindow trigger) = false →
     MaximumBatchingWindowInSeconds (settingsOf trigger) = 0)
  ∧ (∀ n, maxBatchingWindow trigger = Some n →
          MaximumBatchingWindowInSeconds (settingsOf trigger) = n)
  ∧ (Enabled (settingsOf trigger) = false ↔ enabled trigger = Some false).
Proof.
  unfold settingsOf. simpl. split_and!.
  - apply js_or_falsy.
  - intros n Hn Hne. apply js_or_truthy; [done|].
    unfold truthy, truthy_Z. apply negb_true_iff. by apply Z.eqb_neq.
  - apply js_or_falsy.
  - intros n ->. unfold js_or, truthy, truthy_Z.
    destruct (Z.eqb_spec n 0); simpl; congruence.
  - rewrite negb_false_iff. apply bool_decide_eq_true.
Qed.

(** ** Properties of the command line and the client *)

Lemma prefix_append (s t : string) : String.prefix s (s +:+ t) = true.
Proof.
  induction s as [|c s IH]; simpl.
  - by destruct t.
  - destruct (Ascii.ascii_dec c c); [done|congruence].
Qed.

Lemma splitOn_cons (sep : Ascii.ascii) (s : string) :
  ∃ pieces, splitOn sep s = beforeSep sep s :: pieces.
Proof.
  induction s as [|c s [pieces IH]]; simpl; [by exists []|].
  destruct (bool_decide (c = sep)); [eauto|]. rewrite IH. eauto.
Qed.

Lemma splitOn_flag (sep : Ascii.ascii) (name value : string) :
  freeOf sep name →
  splitOn sep (name +:+ String sep value) = name :: splitOn sep value.
Proof.
  induction name as [|c name IH]; simpl.
  - intros _. by rewrite bool_decide_eq_true_2.
  - intros [Hc Hfree]. rewrite bool_decide_eq_false_2 by done. by rewrite IH.
Qed.

Lemma beforeSep_free (sep : Ascii.ascii) (s : string) : freeOf sep s → beforeSep sep s = s.
Proof.
  induction s as [|c s IH]; simpl; [done|]. intros [Hc Hfree].
  rewrite bool_decide_eq_false_2 by done. by rewrite IH.
Qed.

Lemma find_skip {A} (p : A → bool) (pre : list A) (x : A) (post : list A) :
  Forall (λ a, p a = false) pre → p x = true →
  List.find p (pre ++ x :: post) = Some x.
Proof.
  intros Hpre Hx. induction Hpre as [|a pre Ha _ IH]; simpl.
  - by rewrite Hx.
  - by rewrite Ha.
Qed.

(** The value of a flag is what follows [name=] in the first argument that
    starts with it, cut at the next [=]: a value without [=] is read whole, a
    value with one loses everything from the [=] on. *)
Theorem flagValue_first_match (name value : string) (pre post : list string) :
  freeOf "="%char name →
  Forall (λ arg, String.prefix (name +:+ "=") arg = false) pre →
  let flag := name +:+ "=" in
  flagValue flag (pre ++ (flag +:+ value) :: post) = Some (beforeSep "="%char value)
  ∧ (freeOf "="%char value →
     flagValue flag (pre ++ (flag +:+ value) :: post) = Some value).
Proof.
  intros Hname Hpre flag. subst flag.
  assert (Hvalue : flagValue (name +:+ "=")
                     (pre ++ ((name +:+ "=") +:+ value) :: post)
                   = Some (beforeSep "="%char value)).
  { unfold flagValue.
    rewrite (find_skip _ pre ((name +:+ "=") +:+ value) post Hpre)
      by apply prefix_append.
    simpl.
    replace ((name +:+ "=") +:+ value) with (name +:+ String "="%char value).
    2: { clear. induction name as [|c name IH]; [done|].
         change (String c (name +:+ String "="%char value)
                 = String c ((name +:+ "=") +:+ value)).
         by rewrite IH. }
    rewrite splitOn_flag by done.
    destruct (splitOn_cons "="%char value) as [pieces ->]. done. }
  split; [done|]. intros Hfree. by rewrite Hvalue, beforeSep_free.
Qed.

Lemma flagValue_first_match_witness :
  flagValue "--profile=" ["--region=eu-west-1"; "--profile=a=b"; "--profile=c"] = Some "a"
  ∧ flagValue "--region=" ["--region=eu-west-1"; "--profile=a=b"] = Some "eu-west-1".
Proof.
  split.
  - exact (proj1 (flagValue_first_match "--profile" "a=b" ["--region=eu-west-1"]
                    ["--profile=c"]
                    ltac:(simpl; repeat split; discriminate)
                    ltac:(repeat constructor))).
  - exact (proj2 (flagValue_first_match "--region" "eu-west-1" [] ["--profile=a=b"]
                    ltac:(simpl; repeat split; discriminate)
                    ltac:(constructor))
             ltac:(simpl; repeat split; discriminate)).
Defined.

(** Without any argument starting with the flag there is no value. *)
Lemma flagValue_absent (flag : string) (args : list string) :
  Forall (λ arg, String.prefix flag arg = false) args → flagValue flag args = None.
Proof.
  intros Hall. unfold flagValue.
  replace (List.find (String.prefix flag) args) with (@None string); [done|].
  induction Hall as [|a args Ha _ IH]; simpl; [done|]. by rewrite Ha.
Qed.

(** How the command line and the configuration file share the client: a
    configuration with neither region nor profile keeps the client of the
    command line; a region or profile in the configuration replaces that
    client as a whole, so a profile alone resets the region to eu-central-1
    and a region alone drops the profile of the command line. *)
Theorem rebindClient_overrides (options : Options) (config : DeploymentConfig) :
  let client := rebindClient (newDeployer options) config in
  (truthy (region config) = false → truthy (profile config) = false →
   client = newDeployer options)
  ∧ (truthy (region config) = false → truthy (profile config) = true →
     client_region client = "eu-central-1" ∧ client_profile client = profile config)
  ∧ (truthy (profile config) = false →
     ∀ r, region config = Some r → truthy r = true →
          client_region client = r ∧ client_profile client = None).
Proof.
  unfold rebindClient. split_and!.
  - by intros -> ->.
  - intros Hr Hp. rewrite Hr, Hp. simpl. split; [|done]. by apply js_or_falsy.
  - intros Hp r Hr Hrt. rewrite Hp, Hr.
    assert (Hsome : truthy (Some r) = true) by done.
    rewrite Hsome. simpl. split; [|done]. unfold js_or. by rewrite Hrt.
Qed.
